(** * The chain of a proof-of-work ledger: a model of [chain.py]

    [chain.py] defines the class [Chain]: the list of blocks, the running
    cost and the index of mined blobs, with the methods that grow, complete,
    validate and serialise a chain.  This development embeds those methods
    and proves properties of them.

    The classes [Block] and [BlockBuilder] ([block.py]), the protocol buffer
    messages ([protos]) and [util] are collaborators of [chain.py]; what
    [chain.py] needs of them is gathered in the class [Collaborators]. *)

From Stdlib Require Import ZArith List Bool Lia Sorted.
From Stdlib Require Import Strings.Byte.
From stdpp Require Import base option list countable gmap.

(** ** Python values *)

Definition bytes := list byte.

#[global] Instance byte_eq_decision : EqDecision byte := byte_eq_dec.
#[global] Instance byte_countable : Countable byte :=
  inj_countable Byte.to_N Byte.of_N Byte.of_to_N.

(** The exceptions the methods of [Chain] can raise. *)
Inductive exn := AttributeError | DecodeError | IndexError.

Inductive result (A : Type) : Type :=
| Ok (a : A)
| Raise (e : exn).
Arguments Ok {A} a.
Arguments Raise {A} e.

#[global] Instance exn_eq_decision : EqDecision exn.
Proof. solve_decision. Defined.

(** [l[i]] for a Python list: a negative index counts from the end, an index
    out of range raises [IndexError]. *)
Definition py_getitem {A : Type} (l : list A) (i : Z) : result A :=
  let n := Z.of_nat (length l) in
  let j := if (i <? 0)%Z then (i + n)%Z else i in
  if (j <? 0)%Z || (n <=? j)%Z then Raise IndexError
  else match l !! Z.to_nat j with
       | Some x => Ok x
       | None => Raise IndexError
       end.

(** [l.insert(i, x)]: a negative index counts from the end, and an index
    beyond either end is clamped to it.  The index is taken to fit a machine
    word, as every index of a list does; CPython raises [OverflowError] for
    one that does not. *)
Definition py_list_insert {A : Type} (i : Z) (x : A) (l : list A) : list A :=
  let n := Z.of_nat (length l) in
  let j := if (i <? 0)%Z then Z.max 0 (i + n) else Z.min i n in
  take (Z.to_nat j) l ++ x :: drop (Z.to_nat j) l.

(** [range(lo, hi)]. *)
Definition py_range (lo hi : Z) : list Z :=
  map (fun k => (lo + Z.of_nat k)%Z) (seq 0 (Z.to_nat (hi - lo))).

(** ** Blocks

    Modelled from the spec: the class [Block] of [block.py], which is not
    part of the sources at hand.  A block is a header ([prev_hash], [nonce],
    [difficulty]) and an optional body, the ordered list of its blobs. *)
Record Header := mkHeader {
  h_prev_hash : bytes;
  h_nonce : Z;
  h_difficulty : Z;
}.

#[global] Instance header_eq_decision : EqDecision Header.
Proof. solve_decision. Defined.

Record Block := mkBlock {
  header : Header;
  body : option (list bytes);
}.

#[global] Instance block_eq_decision : EqDecision Block.
Proof. solve_decision. Defined.

(** What [get_body()] hands out: [None], or a body message with its
    [blobs]. *)
Inductive PyObj :=
| PyNone
| PyBody (blobs : list bytes).

(** [obj.blobs]: [None] has no such attribute. *)
Definition getattr_blobs (o : PyObj) : result (list bytes) :=
  match o with
  | PyBody l => Ok l
  | PyNone => Raise AttributeError
  end.

(** What [chain.py] imports and does not define. *)
Class Collaborators := {
  (** [Block.hash()]: the digest of the header. *)
  digest : Header -> bytes;
  (** [Block.is_valid()]: the digest of the header meets the target of its
      difficulty. *)
  meets_target : Header -> bool;
  (** [Block.get_cost()], a function of the difficulty. *)
  cost_of : Z -> Z;
  (** [Block.genesis()]. *)
  genesis_block : Block;
  (** What [get_body()] returns for a block that has no body: [chain.py]
      does not tell whether that is [None] or an empty body message. *)
  bodiless_get_body : PyObj;
  (** [Block.encode(include_body)] and [Block.decode(data, has_body)];
      [None] stands for a [DecodeError]. *)
  block_encode : Block -> bool -> bytes;
  block_decode : bytes -> bool -> option Block;
  (** [chain_pb2.Chain]: [SerializeToString] and [ParseFromString] of the
      message whose only field is the repeated [blocks]. *)
  chain_serialize : list bytes -> bytes;
  chain_parse : bytes -> option (list bytes);
  (** [request_pb2.BlobMessage]: [ParseFromString] followed by [.blob]. *)
  blob_message_parse : bytes -> option bytes;
  (** The builtin [hash]. *)
  py_hash : bytes -> Z;
}.

Module Block.
Section Methods.
Context {collab : Collaborators}.

Definition prev_hash (b : Block) : bytes := h_prev_hash (header b).
Definition get_nonce (b : Block) : Z := h_nonce (header b).
Definition get_cost (b : Block) : Z := cost_of (h_difficulty (header b)).
Definition hash (b : Block) : bytes := digest (header b).
Definition is_valid (b : Block) : bool := meets_target (header b).

Definition has_body (b : Block) : bool :=
  match body b with Some _ => true | None => false end.

Definition get_body (b : Block) : PyObj :=
  match body b with
  | Some l => PyBody l
  | None => bodiless_get_body
  end.

(** [set_body] attaches what it is given and leaves the header alone. *)
Definition set_body (b : Block) (o : PyObj) : Block :=
  mkBlock (header b) (match o with PyBody l => Some l | PyNone => None end).

(** [a != b]: blocks are equal iff their headers are. *)
Definition ne (a b : Block) : bool := bool_decide (header a <> header b).

Definition genesis : Block := genesis_block.
Definition encode (b : Block) (include_body : bool) : bytes :=
  block_encode b include_body.
Definition decode (data : bytes) (has_body : bool) : result Block :=
  match block_decode data has_body with
  | Some b => Ok b
  | None => Raise DecodeError
  end.

End Methods.
End Block.

(** Modelled from the spec: the class [BlockBuilder] of [block.py], which is
    not part of the sources at hand.  It holds the parent hash, the
    difficulty and the blobs added so far; [build] searches the nonces
    0, 1, 2, ... for one whose header meets the target.  The search has no
    bound, so the model takes the number of nonces it may try: [None] is a
    search still running when they are used up. *)
Module BlockBuilder.
Section Methods.
Context {collab : Collaborators}.

Record t := mk {
  parent_hash : bytes;
  target_difficulty : Z;
  blobs : list bytes;
}.

Definition new (prev : bytes) (difficulty : Z) : t := mk prev difficulty [].

Definition add (bb : t) (blob : bytes) : t :=
  mk (parent_hash bb) (target_difficulty bb) (blobs bb ++ [blob]).

Fixpoint mine (fuel : nat) (prev : bytes) (difficulty : Z) (n : Z) : option Z :=
  match fuel with
  | O => None
  | S fuel' =>
      if meets_target (mkHeader prev n difficulty) then Some n
      else mine fuel' prev difficulty (n + 1)%Z
  end.

Definition build (fuel : nat) (bb : t) : option Block :=
  match mine fuel (parent_hash bb) (target_difficulty bb) 0%Z with
  | Some n =>
      Some (mkBlock (mkHeader (parent_hash bb) n (target_difficulty bb))
                    (Some (blobs bb)))
  | None => None
  end.

End Methods.
End BlockBuilder.

(** ** Methods as state transformers

    A method of an object with state [S] maps the state before the call to
    the state after it and either a returned value or a raised exception.
    The state a raising call leaves behind is kept: the caller that catches
    the exception goes on with it. *)
Definition method (S A : Type) : Type := S -> S * result A.

#[global] Instance method_ret {S} : MRet (method S) :=
  fun A (a : A) s => (s, Ok a).

#[global] Instance method_bind {S} : MBind (method S) :=
  fun A B (f : A -> method S B) (m : method S A) s =>
    match m s with
    | (s', Ok a) => f a s'
    | (s', Raise e) => (s', Raise e)
    end.

Definition gets {S A} (f : S -> A) : method S A := fun s => (s, Ok (f s)).
Definition modify {S} (f : S -> S) : method S unit := fun s => (f s, Ok tt).
Definition lift {S A} (r : result A) : method S A := fun s => (s, r).
Definition or_raise {A} (o : option A) (e : exn) : result A :=
  match o with Some a => Ok a | None => Raise e end.

(** [for idx, x in enumerate(l, start): f(idx, x)]. *)
Fixpoint for_enumerate {S A} (start : Z) (l : list A)
    (f : Z -> A -> method S unit) : method S unit :=
  match l with
  | [] => mret tt
  | x :: l' => f start x ;; for_enumerate (start + 1)%Z l' f
  end.

(** [d[k].add(x)] for a [defaultdict(set)]. *)
Definition defaultdict_add (k : Z) (x : Z * Z)
    (d : gmap Z (gset (Z * Z))) : gmap Z (gset (Z * Z)) :=
  <[k := default ∅ (d !! k) ∪ {[x]}]> d.

(** ** The chain *)
Module Chain.

Record t := mk {
  blocks : list Block;
  cost : Z;
  mined_blobs : gmap Z (gset (Z * Z));
}.

Definition set_blocks (f : list Block -> list Block) (c : t) : t :=
  mk (f (blocks c)) (cost c) (mined_blobs c).
Definition set_cost (f : Z -> Z) (c : t) : t :=
  mk (blocks c) (f (cost c)) (mined_blobs c).
Definition set_mined_blobs
    (f : gmap Z (gset (Z * Z)) -> gmap Z (gset (Z * Z))) (c : t) : t :=
  mk (blocks c) (cost c) (f (mined_blobs c)).

Section Methods.
Context {collab : Collaborators}.

Definition get_cost (self : t) : Z := cost self.

Definition __init__ : t :=
  mk [Block.genesis] (Block.get_cost Block.genesis) ∅.

Definition __add_mined_blobs (block_idx : Z) (block : Block) : method t unit :=
  if negb (Block.has_body block) then mret tt
  else
    blobs ← lift (getattr_blobs (Block.get_body block));
    for_enumerate 0%Z blobs (fun idx blob =>
      msg_blob ← lift (or_raise (blob_message_parse blob) DecodeError);
      modify (set_mined_blobs (defaultdict_add (py_hash msg_blob) (block_idx, idx)))).

(** [util.log_collection] only writes to the log; its arguments, the nonce
    and [block.get_body().blobs], are evaluated before it is called, whatever
    the log level. *)
Definition add (block : Block) : method t unit :=
  _ ← lift (getattr_blobs (Block.get_body block));
  block_idx ← gets (fun self => Z.of_nat (length (blocks self)));
  __add_mined_blobs block_idx block ;;
  modify (set_cost (fun c => (c + Block.get_cost block)%Z)) ;;
  modify (set_blocks (fun bs => bs ++ [block])).

Definition insert (idx : Z) (block : Block) : method t unit :=
  __add_mined_blobs idx block ;;
  modify (set_cost (fun c => (c + Block.get_cost block)%Z)) ;;
  modify (set_blocks (py_list_insert idx block)).

(** [replace] sets the body of the block object the list holds at [idx].
    The list is modelled by value; were one object in the list twice,
    setting its body would show at both places, and nothing below is stated
    about the places other than [idx]. *)
Definition replace (idx : Z) (block : Block) : method t bool :=
  len ← gets (fun self => Z.of_nat (length (blocks self)));
  if (idx <=? 0)%Z || (len <=? idx)%Z then mret false
  else
    cur ← (fun self => lift (py_getitem (blocks self) idx) self);
    if Block.ne cur block then mret false
    else
      (* [cur] is the object in the list: setting its body changes the list *)
      let cur' := Block.set_body cur (Block.get_body block) in
      modify (set_blocks (fun bs => <[Z.to_nat idx := cur']> bs)) ;;
      __add_mined_blobs idx cur' ;;
      mret true.

(** [next]: [fuel] bounds the nonces the builder may try; the value [None]
    is a search that has not ended within them.  The debug log of the blobs
    only writes to the log. *)
Definition next (fuel : nat) (difficulty : Z) (blobs : list bytes)
    : method t (option Block) :=
  prev ← (fun self => lift (py_getitem (blocks self) (-1)) self);
  let builder := BlockBuilder.new (Block.hash prev) difficulty in
  let builder := fold_left BlockBuilder.add blobs builder in
  mret (BlockBuilder.build fuel builder).

(** The loop of [is_valid] over [range(1, len(self.blocks))]. *)
Fixpoint is_valid_loop (bs : list Block) (indices : list Z) : result bool :=
  match indices with
  | [] => Ok true
  | i :: rest =>
      match py_getitem bs i with
      | Raise e => Raise e
      | Ok cur =>
          match py_getitem bs (i - 1) with
          | Raise e => Raise e
          | Ok prev =>
              if bool_decide (Block.prev_hash cur <> Block.hash prev)
                 || negb (Block.is_valid cur)
              then Ok false
              else is_valid_loop bs rest
          end
      end
  end.

Definition is_valid (self : t) : result bool :=
  match py_getitem (blocks self) 0 with
  | Raise e => Raise e
  | Ok first =>
      if negb (Block.is_valid first) then Ok false
      else is_valid_loop (blocks self)
             (py_range 1 (Z.of_nat (length (blocks self))))
  end.

Definition encode (self : t) (include_body : bool) : bytes :=
  chain_serialize (map (fun block => Block.encode block include_body) (blocks self)).

(** The loop of [get_bodiless_indices] over [enumerate(self.blocks)]. *)
Fixpoint bodiless_from (idx : Z) (bs : list Block) : list Z :=
  match bs with
  | [] => []
  | block :: rest =>
      if negb (Block.has_body block) then idx :: bodiless_from (idx + 1)%Z rest
      else bodiless_from (idx + 1)%Z rest
  end.

Definition get_bodiless_indices (self : t) : list Z :=
  bodiless_from 0%Z (blocks self).

(** The loop of [is_complete] over [self.blocks]. *)
Fixpoint all_have_body (bs : list Block) : bool :=
  match bs with
  | [] => true
  | block :: rest =>
      if negb (Block.has_body block) then false else all_have_body rest
  end.

Definition is_complete (self : t) : result bool :=
  match is_valid self with
  | Raise e => Raise e
  | Ok valid =>
      if negb valid then Ok false else Ok (all_have_body (blocks self))
  end.

(** The loop of [decode] over [chain_data.blocks[1:]]: a block that fails to
    decode, or an [add] that raises, ends it with that exception. *)
Fixpoint decode_loop (records : list bytes) (has_bodies : bool) (chain : t)
    : result t :=
  match records with
  | [] => Ok chain
  | block_data :: rest =>
      match Block.decode block_data has_bodies with
      | Raise e => Raise e
      | Ok block =>
          match add block chain with
          | (chain', Ok _) => decode_loop rest has_bodies chain'
          | (_, Raise e) => Raise e
          end
      end
  end.

Definition decode (data : bytes) (has_bodies : bool) : result t :=
  match chain_parse data with
  | None => Raise DecodeError
  | Some chain_data_blocks =>
      decode_loop (drop 1 chain_data_blocks) has_bodies __init__
  end.

(** A call of one of the three methods that change a chain. *)
Inductive call :=
| Add (block : Block)
| Insert (idx : Z) (block : Block)
| Replace (idx : Z) (block : Block).

(** The chain after a call, whether it returned or raised. *)
Definition after (c : call) (self : t) : t :=
  match c with
  | Add b => fst (add b self)
  | Insert i b => fst (insert i b self)
  | Replace i b => fst (replace i b self)
  end.

Definition after_all (cs : list call) (self : t) : t :=
  fold_left (fun s c => after c s) cs self.

End Methods.
End Chain.

(** ** What the properties are stated with *)
Section Specifications.
Context {collab : Collaborators}.

(** What [is_valid] asks of a block after the first, given the block before
    it. *)
Definition link_ok (prev cur : Block) : bool :=
  bool_decide (Block.prev_hash cur = Block.hash prev) && Block.is_valid cur.

(** Every block of [rest] passes that test against the block before it,
    [prev] being the block before the first. *)
Fixpoint linked (prev : Block) (rest : list Block) : bool :=
  match rest with
  | [] => true
  | cur :: rest' => link_ok prev cur && linked cur rest'
  end.

(** All the blobs of [l] parse as blob messages. *)
Definition blobs_decode (l : list bytes) : bool :=
  forallb (fun blob => bool_decide (is_Some (blob_message_parse blob))) l.

(** The index after the blobs of [l], counted from [k], are entered for the
    block at [block_idx], up to the first blob that does not parse. *)
Fixpoint index_blobs (block_idx k : Z) (l : list bytes)
    (d : gmap Z (gset (Z * Z))) : gmap Z (gset (Z * Z)) :=
  match l with
  | [] => d
  | blob :: l' =>
      match blob_message_parse blob with
      | Some msg_blob =>
          index_blobs block_idx (k + 1)%Z l'
            (defaultdict_add (py_hash msg_blob) (block_idx, k) d)
      | None => d
      end
  end.

(** What the loop of [__add_mined_blobs] over the blobs of [l] ends with. *)
Definition decoded_or_raise (l : list bytes) : result unit :=
  if blobs_decode l then Ok tt else Raise DecodeError.

(** The sum of the costs of the blocks of a list. *)
Definition sum_costs (bs : list Block) : Z :=
  fold_right Z.add 0%Z (map Block.get_cost bs).

(** The invariant: the running cost is the sum of the costs of the blocks. *)
Definition cost_invariant (c : Chain.t) : Prop :=
  Chain.cost c = sum_costs (Chain.blocks c).

(** [replace] is in range for the indices [1 .. len - 1]. *)
Definition replaceable (idx : Z) (c : Chain.t) : Prop :=
  (0 < idx < Z.of_nat (length (Chain.blocks c)))%Z.

(** The condition under which [replace] goes on to set the body: the index
    is in range and the block there has the header of the block given. *)
Definition replace_accepts (idx : Z) (block : Block) (c : Chain.t) : Prop :=
  replaceable idx c /\
  exists cur, Chain.blocks c !! Z.to_nat idx = Some cur /\ header cur = header block.

(** The claim about [replace] as the specification words it: [replace]
    returns true exactly when it accepts; when it returns true the block at
    [idx] has a body, that of the block given; when it returns false the
    chain is as before. *)
Definition replace_as_specified (idx : Z) (block : Block) (c : Chain.t) : Prop :=
  (snd (Chain.replace idx block c) = Ok true <-> replace_accepts idx block c)
  /\ (snd (Chain.replace idx block c) = Ok true ->
      exists cur', Chain.blocks (fst (Chain.replace idx block c)) !! Z.to_nat idx
                   = Some cur'
        /\ Block.has_body cur' = true
        /\ Block.get_body cur' = Block.get_body block)
  /\ (snd (Chain.replace idx block c) = Ok false ->
      fst (Chain.replace idx block c) = c).

(** The blocks of a list added one after the other; the first [add] that
    raises ends it. *)
Fixpoint add_all (bs : list Block) (c : Chain.t) : result Chain.t :=
  match bs with
  | [] => Ok c
  | b :: bs' =>
      match Chain.add b c with
      | (c', Ok _) => add_all bs' c'
      | (_, Raise e) => Raise e
      end
  end.

(** What the round trip of a chain needs of the wire formats: a serialised
    chain message parses to its records, a block with a body that is encoded
    with it decodes to itself, and a block encoded without its body decodes
    to its header alone. *)
Definition codec_lawful : Prop :=
  (forall records, chain_parse (chain_serialize records) = Some records)
  /\ (forall b, Block.has_body b = true ->
        block_decode (block_encode b true) true = Some b)
  /\ (forall b, block_decode (block_encode b false) false
                = Some (mkBlock (header b) None)).

(** The claim about the round trip as the specification words it, for every
    chain. *)
Definition roundtrip_as_specified (c : Chain.t) : Prop :=
  (exists c', Chain.decode (Chain.encode c true) true = Ok c'
              /\ Chain.blocks c' = Chain.blocks c)
  /\ (exists c', Chain.decode (Chain.encode c false) false = Ok c'
              /\ map header (Chain.blocks c') = map header (Chain.blocks c)
              /\ forall i b, Chain.blocks c' !! S i = Some b ->
                             Block.has_body b = false).

(** The locations the index holds under a key. *)
Definition locations (k : Z) (d : gmap Z (gset (Z * Z))) : gset (Z * Z) :=
  default ∅ (d !! k).

(** Every location under a key names a block now at that index, with a body
    whose blob at that position hashes to the key. *)
Definition index_sound (c : Chain.t) : Prop :=
  forall k i j, (i, j) ∈ locations k (Chain.mined_blobs c) ->
  exists b l blob msg_blob,
    (0 <= i)%Z /\ (0 <= j)%Z
    /\ Chain.blocks c !! Z.to_nat i = Some b
    /\ body b = Some l
    /\ l !! Z.to_nat j = Some blob
    /\ blob_message_parse blob = Some msg_blob
    /\ py_hash msg_blob = k.

(** Every blob that parses, of every block after the first that has a body,
    is in the index under its hash, at the place of its block and its own
    place in the body. *)
Definition index_complete (c : Chain.t) : Prop :=
  forall n b l j blob msg_blob,
    1 <= n ->
    Chain.blocks c !! n = Some b ->
    body b = Some l ->
    l !! j = Some blob ->
    blob_message_parse blob = Some msg_blob ->
    (Z.of_nat n, Z.of_nat j) ∈ locations (py_hash msg_blob) (Chain.mined_blobs c).

(** No location of the index names the index 0 or one before it. *)
Definition index_clear_of_genesis (c : Chain.t) : Prop :=
  forall k i j, (i, j) ∈ locations k (Chain.mined_blobs c) -> (1 <= i)%Z.

(** A call that is not an [insert] at an index of 0 or less. *)
Definition above_genesis (call : Chain.call) : Prop :=
  match call with
  | Chain.Insert idx _ => (1 <= idx)%Z
  | _ => True
  end.

(** The place at which [list.insert(idx, x)] puts [x] in a list of length
    [len]. *)
Definition insert_position (idx : Z) (len : nat) : nat :=
  Z.to_nat (if (idx <? 0)%Z then Z.max 0 (idx + Z.of_nat len)
            else Z.min idx (Z.of_nat len)).

(** What the loop of [__add_mined_blobs] over the blobs of [l], counted from
    [k0], enters under the key [k]: [None] if it never touches the key. *)
Fixpoint entered (block_idx k0 : Z) (l : list bytes) (k : Z)
    : option (gset (Z * Z)) :=
  match l with
  | [] => None
  | blob :: l' =>
      match blob_message_parse blob with
      | None => None
      | Some msg_blob =>
          let rest := entered block_idx (k0 + 1)%Z l' k in
          if decide (py_hash msg_blob = k)
          then Some ({[ (block_idx, k0) ]} ∪ default ∅ rest)
          else rest
      end
  end.



End Specifications.

(** ** A reference implementation of the collaborators

    A concrete [Block] codec, chain message, blob message, digest and
    proof-of-work target, on which the chain can be run.  The wire formats
    write a value as the binary digits of its code, one byte per digit, so a
    byte other than 0 or 1 is malformed. *)
Module Reference.

Fixpoint bytes_of_positive (p : positive) : bytes :=
  match p with
  | xH => []
  | xO q => x00 :: bytes_of_positive q
  | xI q => x01 :: bytes_of_positive q
  end.

Fixpoint positive_of_bytes (data : bytes) : option positive :=
  match data with
  | [] => Some xH
  | x00 :: rest => xO <$> positive_of_bytes rest
  | x01 :: rest => xI <$> positive_of_bytes rest
  | _ => None
  end.

Definition dumps `{Countable A} (a : A) : bytes :=
  bytes_of_positive (countable.encode a).

Definition loads `{Countable A} (data : bytes) : option A :=
  positive_of_bytes data ≫= countable.decode.

(** A block on the wire: its header and, if it is sent, its body. *)
Definition block_record : Type := (bytes * Z * Z) * option (list bytes).

Definition record_of_block (b : Block) (include_body : bool) : block_record :=
  ((h_prev_hash (header b), h_nonce (header b), h_difficulty (header b)),
   if include_body then body b else None).

Definition block_of_record (r : block_record) (has_body : bool) : Block :=
  let '((p, n, d), ob) := r in
  mkBlock (mkHeader p n d) (if has_body then ob else None).

Definition ref_block_encode (b : Block) (include_body : bool) : bytes :=
  dumps (record_of_block b include_body).

Definition ref_block_decode (data : bytes) (has_body : bool) : option Block :=
  (fun r => block_of_record r has_body) <$> loads data.

(** A blob message is the byte [0x0a] followed by the blob. *)
Definition ref_blob_message_parse (blob : bytes) : option bytes :=
  match blob with
  | x0a :: payload => Some payload
  | _ => None
  end.

Definition ref_py_hash (data : bytes) : Z :=
  fold_left (fun acc b => (acc * 31 + Z.of_N (Byte.to_N b))%Z) data 7%Z.

(** A one-byte digest, valid when below [256 / 2^difficulty]. *)
Definition ref_digest (h : Header) : bytes :=
  let v := (ref_py_hash (h_prev_hash h) + 3 * h_nonce h + h_difficulty h)%Z in
  [default x00 (Byte.of_N (Z.to_N (v mod 256)))].

Definition ref_meets_target (h : Header) : bool :=
  match ref_digest h with
  | [d] => (Z.of_N (Byte.to_N d) <? Z.shiftr 256 (h_difficulty h))%Z
  | _ => false
  end.

Definition ref_genesis : Block := mkBlock (mkHeader [] 0 0) (Some []).

(** The reference collaborators, given what [get_body()] returns for a block
    without a body. *)
Definition collaborators (absent : PyObj) : Collaborators := {|
  digest := ref_digest;
  meets_target := ref_meets_target;
  cost_of := fun d => (2 ^ d)%Z;
  genesis_block := ref_genesis;
  bodiless_get_body := absent;
  block_encode := ref_block_encode;
  block_decode := ref_block_decode;
  chain_serialize := dumps;
  chain_parse := loads;
  blob_message_parse := ref_blob_message_parse;
  py_hash := ref_py_hash;
|}.

(** [get_body()] of a bodiless block is [None] ... *)
Definition with_none : Collaborators := collaborators PyNone.
(** ... or an empty body message. *)
Definition with_empty_body : Collaborators := collaborators (PyBody []).

(** Some blocks to run the chain on. *)
Definition blob_a : bytes := [x0a; x61].
Definition blob_b : bytes := [x0a; x62].
Definition blob_malformed : bytes := [xff].

Definition mined (prev : bytes) (n d : Z) (blobs : list bytes) : Block :=
  mkBlock (mkHeader prev n d) (Some blobs).
Definition header_only (b : Block) : Block := mkBlock (header b) None.

(** [block_1] extends the genesis block, whose digest is the byte 7;
    [block_2] does not. *)
Definition block_1 : Block := mined [x07] 0 0 [blob_a].
Definition block_2 : Block := mined [] 5 1 [blob_b].

(** The chain of [__init__] followed by [add(block_1)]. *)
Definition chain_1 (C : Collaborators) : Chain.t :=
  fst (Chain.add block_1 Chain.__init__).

(** The chain of [__init__] followed by [insert(0, block_1)]: its block at
    index 0 is [block_1], not the genesis block. *)
Definition chain_0 (C : Collaborators) : Chain.t :=
  fst (Chain.insert 0 block_1 Chain.__init__).

(** [add(block_1)] then [insert(1, block_2)] on the chain of [__init__]. *)
Definition chain_2 (C : Collaborators) : Chain.t :=
  Chain.after_all [Chain.Add block_1; Chain.Insert 1 block_2] Chain.__init__.

(** [block_3] extends [block_1], whose digest is the byte 224, and holds the
    blob of [block_1] again; the second blob of [block_partial] does not
    parse. *)
Definition block_3 : Block := mined [xe0] 0 0 [blob_b; blob_a].
Definition block_partial : Block := mined [x07] 0 0 [blob_a; blob_malformed].




End Reference.

(** * Properties *)

(** ** Python lists *)

Lemma py_getitem_nat {A} (l : list A) (i : nat) :
  py_getitem l (Z.of_nat i) = or_raise (l !! i) IndexError.
Proof.
  unfold py_getitem. cbv zeta.
  assert (Hi : (Z.of_nat i <? 0)%Z = false) by (apply Z.ltb_ge; lia).
  rewrite !Hi, Nat2Z.id. simpl.
  destruct (Z.leb_spec (Z.of_nat (length l)) (Z.of_nat i)) as [Hge|Hlt].
  - rewrite lookup_ge_None_2 by lia. reflexivity.
  - destruct (l !! i); reflexivity.
Qed.

Lemma py_getitem_last {A} (l : list A) :
  py_getitem l (-1) = or_raise (last l) IndexError.
Proof.
  unfold py_getitem. cbv zeta.
  change (-1 <? 0)%Z with true. cbv iota.
  destruct l as [|x l _] using rev_ind.
  - reflexivity.
  - rewrite last_snoc, length_app. simpl length.
    replace (-1 + Z.of_nat (length l + 1))%Z with (Z.of_nat (length l)) by lia.
    assert (H0 : (Z.of_nat (length l) <? 0)%Z = false) by (apply Z.ltb_ge; lia).
    assert (H1 : (Z.of_nat (length l + 1) <=? Z.of_nat (length l))%Z = false)
      by (apply Z.leb_gt; lia).
    rewrite H0, H1, Nat2Z.id, lookup_app_r, Nat.sub_diag by lia. reflexivity.
Qed.

Lemma py_range_nat (a m : nat) :
  py_range (Z.of_nat a) (Z.of_nat (a + m)) = map Z.of_nat (seq a m).
Proof.
  unfold py_range.
  replace (Z.to_nat (Z.of_nat (a + m) - Z.of_nat a)) with m by lia.
  enough (Hgen : forall k,
    map (fun j => (Z.of_nat a + Z.of_nat j)%Z) (seq k m)
    = map Z.of_nat (seq (a + k) m)).
  { rewrite Hgen, Nat.add_0_r. reflexivity. }
  induction m as [|m IH]; intros k; simpl; [reflexivity|].
  f_equal; [lia|]. rewrite IH. f_equal. f_equal. lia.
Qed.

Lemma py_list_insert_length {A} (i : Z) (x : A) (l : list A) :
  length (py_list_insert i x l) = S (length l).
Proof.
  unfold py_list_insert. rewrite length_app. simpl.
  rewrite length_take, length_drop. lia.
Qed.

(** ** [is_valid] *)
Section IsValid.
Context {collab : Collaborators}.

Lemma is_valid_loop_linked (pre : list Block) (prev : Block) (rest : list Block) :
  Chain.is_valid_loop (pre ++ prev :: rest)
    (map Z.of_nat (seq (S (length pre)) (length rest)))
  = Ok (linked prev rest).
Proof.
  revert pre prev. induction rest as [|cur rest IH]; intros pre prev.
  - reflexivity.
  - cbn [length seq map Chain.is_valid_loop linked].
    rewrite py_getitem_nat.
    replace (Z.of_nat (S (length pre)) - 1)%Z with (Z.of_nat (length pre)) by lia.
    rewrite py_getitem_nat.
    rewrite (lookup_app_r pre) by lia.
    replace (S (length pre) - length pre) with 1 by lia.
    rewrite list_lookup_middle by reflexivity. cbn [lookup list_lookup or_raise].
    unfold link_ok at 1.
    destruct (decide (Block.prev_hash cur = Block.hash prev)) as [Heq|Hne].
    + rewrite (bool_decide_eq_false_2 _ (fun H' => H' Heq)).
      rewrite (bool_decide_eq_true_2 _ Heq). cbn [orb andb].
      destruct (Block.is_valid cur); cbn [negb]; [|reflexivity].
      specialize (IH (pre ++ [prev]) cur).
      rewrite <- app_assoc, length_app in IH. cbn [app length] in IH.
      rewrite Nat.add_1_r in IH. exact IH.
    + rewrite (bool_decide_eq_true_2 _ Hne).
      rewrite (bool_decide_eq_false_2 _ Hne). reflexivity.
Qed.

Lemma is_valid_eq (self : Chain.t) :
  Chain.is_valid self =
  match Chain.blocks self with
  | [] => Raise IndexError
  | first :: rest => Ok (Block.is_valid first && linked first rest)
  end.
Proof.
  unfold Chain.is_valid. rewrite (py_getitem_nat _ 0).
  destruct (Chain.blocks self) as [|first rest]; [reflexivity|].
  cbn [lookup list_lookup or_raise].
  destruct (Block.is_valid first); cbn [negb andb]; [|reflexivity].
  change 1%Z with (Z.of_nat 1).
  change (length (first :: rest)) with (1 + length rest).
  rewrite py_range_nat. apply (is_valid_loop_linked [] first rest).
Qed.

Lemma link_ok_true (prev cur : Block) :
  link_ok prev cur = true <->
  Block.prev_hash cur = Block.hash prev /\ Block.is_valid cur = true.
Proof.
  unfold link_ok. rewrite andb_true_iff, bool_decide_eq_true. reflexivity.
Qed.

Lemma linked_lookup (prev : Block) (rest : list Block) :
  linked prev rest = true <->
  forall i p cur, (prev :: rest) !! i = Some p -> (prev :: rest) !! S i = Some cur ->
    link_ok p cur = true.
Proof.
  revert prev. induction rest as [|b rest IH]; intros prev; cbn [linked].
  - split; [|reflexivity]. intros _ i p cur _ Hc.
    destruct i; discriminate Hc.
  - rewrite andb_true_iff, IH. split.
    + intros [H0 Hr] [|i] p cur Hp Hc.
      * cbn in Hp, Hc. congruence.
      * apply (Hr i); assumption.
    + intros Hall. split.
      * apply (Hall 0); reflexivity.
      * intros i p cur Hp Hc. apply (Hall (S i)); assumption.
Qed.

Lemma linked_headers (prev prev' : Block) (rest rest' : list Block) :
  header prev = header prev' -> map header rest = map header rest' ->
  linked prev rest = linked prev' rest'.
Proof.
  revert prev prev' rest'.
  induction rest as [|b rest IH]; intros prev prev' [|b' rest'] Hp Hr;
    try discriminate Hr; [reflexivity|].
  cbn in Hr. injection Hr as Hb Hr. cbn [linked].
  rewrite (IH b b' rest' Hb Hr). f_equal.
  unfold link_ok, Block.prev_hash, Block.hash, Block.is_valid.
  rewrite Hb, Hp. reflexivity.
Qed.

Lemma is_valid_true_iff (self : Chain.t) :
  Chain.is_valid self = Ok true <->
  (exists first, Chain.blocks self !! 0 = Some first /\ Block.is_valid first = true) /\
  (forall i prev cur,
     Chain.blocks self !! i = Some prev -> Chain.blocks self !! S i = Some cur ->
     Block.prev_hash cur = Block.hash prev /\ Block.is_valid cur = true).
Proof.
  rewrite is_valid_eq. destruct (Chain.blocks self) as [|first rest].
  - split; [discriminate|]. intros [[first [Hf _]] _]. discriminate Hf.
  - split.
    + intros Hv. injection Hv as Hv. apply andb_true_iff in Hv as [Hf Hl].
      split; [exists first; split; [reflexivity|exact Hf]|].
      intros i prev cur Hp Hc. apply link_ok_true.
      exact (proj1 (linked_lookup first rest) Hl i prev cur Hp Hc).
    + intros [[first' [Hf Hv]] Hall]. injection Hf as <-.
      rewrite Hv. cbn [andb]. f_equal. apply linked_lookup.
      intros i prev cur Hp Hc. apply link_ok_true. exact (Hall i prev cur Hp Hc).
Qed.

Lemma is_valid_total (self : Chain.t) :
  Chain.blocks self <> [] -> exists b, Chain.is_valid self = Ok b.
Proof.
  intros Hne. rewrite is_valid_eq.
  destruct (Chain.blocks self); [congruence|]. eexists. reflexivity.
Qed.

Lemma is_valid_not_true (self : Chain.t) :
  Chain.blocks self <> [] -> Chain.is_valid self <> Ok true ->
  Chain.is_valid self = Ok false.
Proof.
  intros Hne Hnt. destruct (is_valid_total self Hne) as [[|] Hb]; congruence.
Qed.

(** C1.  [is_valid] returns true exactly when the block at index 0 passes
    its own check and every later block both names the hash of the block
    before it and passes its own check.  On a chain that has a block it
    always returns a boolean.  A block that fails decides the answer: every
    chain that agrees with this one up to and including the failing block
    is invalid, whatever follows it.  The answer depends on the headers
    alone: two chains with the same headers, whatever their bodies, get the
    same answer. *)
Theorem is_valid_spec (self : Chain.t) :
  (Chain.is_valid self = Ok true <->
     (exists first,
        Chain.blocks self !! 0 = Some first /\ Block.is_valid first = true) /\
     (forall i prev cur,
        Chain.blocks self !! i = Some prev ->
        Chain.blocks self !! S i = Some cur ->
        Block.prev_hash cur = Block.hash prev /\ Block.is_valid cur = true))
  /\ (Chain.blocks self <> [] -> exists b, Chain.is_valid self = Ok b)
  /\ (forall first other,
        Chain.blocks self !! 0 = Some first -> Block.is_valid first = false ->
        take 1 (Chain.blocks other) = take 1 (Chain.blocks self) ->
        Chain.is_valid other = Ok false)
  /\ (forall i prev cur other,
        Chain.blocks self !! i = Some prev ->
        Chain.blocks self !! S i = Some cur ->
        Block.prev_hash cur <> Block.hash prev \/ Block.is_valid cur = false ->
        take (S (S i)) (Chain.blocks other) = take (S (S i)) (Chain.blocks self) ->
        Chain.is_valid other = Ok false)
  /\ (forall other,
        map header (Chain.blocks other) = map header (Chain.blocks self) ->
        Chain.is_valid other = Chain.is_valid self).
Proof.
  split; [apply is_valid_true_iff|].
  split; [apply is_valid_total|].
  split; [|split].
  - intros first other Hf Hbad Htake.
    assert (Hof : Chain.blocks other !! 0 = Some first).
    { rewrite <- (lookup_take_lt _ 1 0), Htake, lookup_take_lt by lia. exact Hf. }
    apply is_valid_not_true.
    + intros Hnil. rewrite Hnil in Hof. discriminate Hof.
    + intros Hv. apply is_valid_true_iff in Hv as [[first' [Hf' Hv]] _].
      congruence.
  - intros i prev cur other Hp Hc Hbad Htake.
    assert (Hop : Chain.blocks other !! i = Some prev).
    { rewrite <- (lookup_take_lt _ (S (S i)) i), Htake, lookup_take_lt by lia.
      exact Hp. }
    assert (Hoc : Chain.blocks other !! S i = Some cur).
    { rewrite <- (lookup_take_lt _ (S (S i)) (S i)), Htake, lookup_take_lt by lia.
      exact Hc. }
    apply is_valid_not_true.
    + intros Hnil. rewrite Hnil in Hop. discriminate Hop.
    + intros Hv. apply is_valid_true_iff in Hv as [_ Hall].
      destruct (Hall i prev cur Hop Hoc) as [Hlink Hval].
      destruct Hbad; congruence.
  - intros other Hhdr. rewrite !is_valid_eq.
    destruct (Chain.blocks other) as [|a ra], (Chain.blocks self) as [|b rb];
      try discriminate Hhdr; [reflexivity|].
    cbn in Hhdr. injection Hhdr as Ha Hr.
    rewrite (linked_headers a b ra rb Ha Hr).
    unfold Block.is_valid. rewrite Ha. reflexivity.
Qed.

End IsValid.

(** ** [is_complete] and [get_bodiless_indices] *)
Section IsComplete.
Context {collab : Collaborators}.

Lemma all_have_body_true (bs : list Block) :
  Chain.all_have_body bs = true <-> forall b, b ∈ bs -> Block.has_body b = true.
Proof.
  induction bs as [|b bs IH]; cbn [Chain.all_have_body].
  - split; [|reflexivity]. intros _ b Hb. inversion Hb.
  - destruct (Block.has_body b) eqn:Hb; cbn [negb].
    + rewrite IH. split.
      * intros Hall b' Hin. apply elem_of_cons in Hin as [->|Hin]; auto.
      * intros Hall b' Hin. apply Hall. apply elem_of_cons. auto.
    + split; [discriminate|]. intros Hall.
      rewrite <- Hb. apply Hall. apply elem_of_cons. auto.
Qed.

Lemma bodiless_from_elem (k : Z) (bs : list Block) (i : Z) :
  i ∈ Chain.bodiless_from k bs <->
  exists n b, i = (k + Z.of_nat n)%Z /\ bs !! n = Some b /\ Block.has_body b = false.
Proof.
  revert k. induction bs as [|b bs IH]; intros k; cbn [Chain.bodiless_from].
  - split; [intros Hin; inversion Hin|]. intros (n & b & _ & Hl & _).
    discriminate Hl.
  - assert (Htail : i ∈ Chain.bodiless_from (k + 1) bs <->
      exists n b', i = (k + Z.of_nat (S n))%Z /\ bs !! n = Some b'
                   /\ Block.has_body b' = false).
    { rewrite IH. split; intros (n & b' & -> & Hl & Hb); exists n, b';
        (split; [lia|auto]). }
    destruct (Block.has_body b) eqn:Hb; cbn [negb].
    + rewrite Htail. split.
      * intros (n & b' & -> & Hl & Hb'). exists (S n), b'. auto.
      * intros ([|n] & b' & -> & Hl & Hb'); [cbn in Hl; congruence|].
        exists n, b'. auto.
    + rewrite elem_of_cons, Htail. split.
      * intros [->|(n & b' & -> & Hl & Hb')].
        -- exists 0, b. split; [lia|auto].
        -- exists (S n), b'. auto.
      * intros ([|n] & b' & -> & Hl & Hb').
        -- left. lia.
        -- right. exists n, b'. auto.
Qed.

Lemma bodiless_from_nil (k : Z) (bs : list Block) :
  Chain.bodiless_from k bs = [] <-> Chain.all_have_body bs = true.
Proof.
  revert k. induction bs as [|b bs IH]; intros k;
    cbn [Chain.bodiless_from Chain.all_have_body]; [tauto|].
  destruct (Block.has_body b); cbn [negb]; [apply IH|].
  split; discriminate.
Qed.

Lemma is_complete_eq (self : Chain.t) :
  Chain.is_complete self =
  match Chain.is_valid self with
  | Raise e => Raise e
  | Ok valid => Ok (valid && Chain.all_have_body (Chain.blocks self))
  end.
Proof.
  unfold Chain.is_complete. destruct (Chain.is_valid self) as [[|]|]; reflexivity.
Qed.

(** C6.  [is_complete] returns true exactly when [is_valid] returns true and
    every block has a body, that is, when [is_valid] returns true and
    [get_bodiless_indices] is empty.  A chain that [is_valid] rejects is not
    complete, and neither is a chain that holds a block without a body. *)
Theorem is_complete_spec (self : Chain.t) :
  (Chain.is_complete self = Ok true <->
     Chain.is_valid self = Ok true /\
     forall b, b ∈ Chain.blocks self -> Block.has_body b = true)
  /\ (Chain.is_complete self = Ok true <->
     Chain.is_valid self = Ok true /\ Chain.get_bodiless_indices self = [])
  /\ (Chain.is_valid self = Ok false -> Chain.is_complete self = Ok false)
  /\ (forall b, b ∈ Chain.blocks self -> Block.has_body b = false ->
      Chain.is_complete self = Ok false).
Proof.
  rewrite is_complete_eq. unfold Chain.get_bodiless_indices.
  rewrite bodiless_from_nil, <- all_have_body_true.
  assert (Hiff : match Chain.is_valid self with
                 | Ok valid => Ok (valid && Chain.all_have_body (Chain.blocks self))
                 | Raise e => Raise e
                 end = Ok true <->
                 Chain.is_valid self = Ok true /\
                 Chain.all_have_body (Chain.blocks self) = true).
  { destruct (Chain.is_valid self) as [valid|e].
    - split.
      + intros Hc. injection Hc as Hc. apply andb_true_iff in Hc as [-> Hc]. auto.
      + intros [Hval Hall]. injection Hval as ->. rewrite Hall. reflexivity.
    - split; [discriminate|]. intros [Hd _]. discriminate Hd. }
  split; [exact Hiff|]. split; [exact Hiff|]. split.
  - intros ->. reflexivity.
  - intros b Hin Hb.
    destruct (is_valid_total self) as [valid ->].
    { intros Hnil. rewrite Hnil in Hin. inversion Hin. }
    f_equal. apply andb_false_iff. right.
    apply not_true_is_false. intros Hall.
    rewrite (proj1 (all_have_body_true _) Hall b Hin) in Hb. discriminate Hb.
Qed.

End IsComplete.

(** ** The chain of [__init__] *)
Section Init.
Context {collab : Collaborators}.


End Init.



(** ** What the three mutators do to a chain *)
Section Mutators.
Context {collab : Collaborators}.

Lemma index_loop_eq (block_idx k : Z) (l : list bytes) (c : Chain.t) :
  for_enumerate k l (fun idx blob =>
      msg_blob ← lift (or_raise (blob_message_parse blob) DecodeError);
      modify (Chain.set_mined_blobs
                (defaultdict_add (py_hash msg_blob) (block_idx, idx)))) c
  = (Chain.mk (Chain.blocks c) (Chain.cost c)
       (index_blobs block_idx k l (Chain.mined_blobs c)),
     decoded_or_raise l).
Proof.
  revert k c. induction l as [|blob l IH]; intros k c.
  - destruct c; reflexivity.
  - cbn [for_enumerate index_blobs]. unfold decoded_or_raise, blobs_decode.
    cbn [forallb]. unfold mbind at 1, method_bind at 1.
    unfold mbind at 1, method_bind at 1. unfold lift at 1.
    destruct (blob_message_parse blob) as [m|] eqn:Hm; cbn [or_raise].
    + rewrite bool_decide_eq_true_2 by eauto. cbn [andb].
      unfold modify at 1. rewrite IH. reflexivity.
    + rewrite bool_decide_eq_false_2 by (intros [? ?]; discriminate).
      destruct c; reflexivity.
Qed.

Lemma add_mined_blobs_eq (block_idx : Z) (block : Block) (c : Chain.t) :
  Chain.__add_mined_blobs block_idx block c =
  match body block with
  | None => (c, Ok tt)
  | Some l =>
      (Chain.mk (Chain.blocks c) (Chain.cost c)
         (index_blobs block_idx 0 l (Chain.mined_blobs c)),
       decoded_or_raise l)
  end.
Proof.
  unfold Chain.__add_mined_blobs, Block.has_body, Block.get_body.
  destruct (body block) as [l|]; cbn [negb]; [|reflexivity].
  unfold mbind at 1, method_bind at 1, lift at 1. cbn [getattr_blobs].
  apply index_loop_eq.
Qed.

Lemma add_eq (block : Block) (c : Chain.t) :
  Chain.add block c =
  match Block.get_body block with
  | PyNone => (c, Raise AttributeError)
  | PyBody _ =>
      let idx := Z.of_nat (length (Chain.blocks c)) in
      match Chain.__add_mined_blobs idx block c with
      | (c', Ok _) =>
          (Chain.mk (Chain.blocks c' ++ [block])
             (Chain.cost c' + Block.get_cost block) (Chain.mined_blobs c'),
           Ok tt)
      | (c', Raise e) => (c', Raise e)
      end
  end.
Proof.
  unfold Chain.add. unfold mbind at 1, method_bind at 1, lift at 1.
  destruct (Block.get_body block); cbn [getattr_blobs]; [reflexivity|].
  unfold mbind at 1, method_bind at 1, gets at 1.
  unfold mbind at 1, method_bind at 1.
  destruct (Chain.__add_mined_blobs _ block c) as [c' [[]|e]]; reflexivity.
Qed.

Lemma insert_eq (idx : Z) (block : Block) (c : Chain.t) :
  Chain.insert idx block c =
  match Chain.__add_mined_blobs idx block c with
  | (c', Ok _) =>
      (Chain.mk (py_list_insert idx block (Chain.blocks c'))
         (Chain.cost c' + Block.get_cost block) (Chain.mined_blobs c'),
       Ok tt)
  | (c', Raise e) => (c', Raise e)
  end.
Proof.
  unfold Chain.insert. unfold mbind at 1, method_bind at 1.
  destruct (Chain.__add_mined_blobs idx block c) as [c' [[]|e]]; reflexivity.
Qed.

Lemma replace_out_of_range (idx : Z) (block : Block) (c : Chain.t) :
  ~ replaceable idx c -> Chain.replace idx block c = (c, Ok false).
Proof.
  intros Hout. unfold Chain.replace.
  unfold mbind at 1, method_bind at 1, gets at 1.
  destruct (Z.leb_spec idx 0); [reflexivity|].
  destruct (Z.leb_spec (Z.of_nat (length (Chain.blocks c))) idx); [reflexivity|].
  exfalso. apply Hout. unfold replaceable. lia.
Qed.

Lemma replace_in_range (idx : Z) (block : Block) (c : Chain.t) :
  replaceable idx c ->
  exists cur, Chain.blocks c !! Z.to_nat idx = Some cur /\
  Chain.replace idx block c =
  if Block.ne cur block then (c, Ok false)
  else
    let cur' := Block.set_body cur (Block.get_body block) in
    match Chain.__add_mined_blobs idx cur'
            (Chain.set_blocks (fun bs => <[Z.to_nat idx := cur']> bs) c) with
    | (c', Ok _) => (c', Ok true)
    | (c', Raise e) => (c', Raise e)
    end.
Proof.
  intros [Hlo Hhi].
  destruct (lookup_lt_is_Some_2 (Chain.blocks c) (Z.to_nat idx)) as [cur Hcur];
    [lia|].
  exists cur. split; [exact Hcur|].
  unfold Chain.replace.
  unfold mbind at 1, method_bind at 1, gets at 1.
  destruct (Z.leb_spec idx 0); [lia|].
  destruct (Z.leb_spec (Z.of_nat (length (Chain.blocks c))) idx); [lia|].
  cbn [orb]. unfold mbind at 1, method_bind at 1, lift at 1.
  rewrite <- (Z2Nat.id idx) at 1 by lia.
  rewrite py_getitem_nat, Hcur. cbn [or_raise].
  destruct (Block.ne cur block); [reflexivity|].
  unfold mbind at 1, method_bind at 1, modify at 1.
  unfold mbind at 1, method_bind at 1.
  destruct (Chain.__add_mined_blobs _ _ _) as [c' [[]|e]]; reflexivity.
Qed.

End Mutators.

(** ** The running cost *)
Section Cost.
Context {collab : Collaborators}.

Lemma sum_costs_app (l1 l2 : list Block) :
  sum_costs (l1 ++ l2) = (sum_costs l1 + sum_costs l2)%Z.
Proof.
  unfold sum_costs. induction l1 as [|b l1 IH]; cbn; [reflexivity|].
  cbn in IH. rewrite IH. lia.
Qed.



Lemma add_mined_blobs_frame (idx : Z) (block : Block) (c : Chain.t) :
  Chain.blocks (fst (Chain.__add_mined_blobs idx block c)) = Chain.blocks c
  /\ Chain.cost (fst (Chain.__add_mined_blobs idx block c)) = Chain.cost c.
Proof.
  rewrite add_mined_blobs_eq. destruct (body block); split; reflexivity.
Qed.

Lemma init_cost_invariant : cost_invariant Chain.__init__.
Proof. unfold cost_invariant, sum_costs. cbn. lia. Qed.

Lemma add_cost_invariant (block : Block) (c : Chain.t) :
  cost_invariant c -> cost_invariant (fst (Chain.add block c)).
Proof.
  unfold cost_invariant. intros Hinv. rewrite add_eq.
  destruct (Block.get_body block); [exact Hinv|]. cbv zeta.
  destruct (add_mined_blobs_frame (Z.of_nat (length (Chain.blocks c))) block c)
    as [Hb Hc].
  destruct (Chain.__add_mined_blobs _ block c) as [c' [[]|e]];
    cbn [fst] in *; cbn [Chain.cost Chain.blocks].
  - rewrite sum_costs_app, Hb, Hc, Hinv. unfold sum_costs at 3. cbn. lia.
  - congruence.
Qed.






End Cost.

(** ** [replace] *)
Section Replace.
Context {collab : Collaborators}.

Lemma ne_false_iff (a b : Block) : Block.ne a b = false <-> header a = header b.
Proof.
  unfold Block.ne. rewrite bool_decide_eq_false.
  destruct (decide (header a = header b)); tauto.
Qed.

Lemma classic_accepts (idx : Z) (block : Block) (c : Chain.t) :
  replace_accepts idx block c \/ ~ replace_accepts idx block c.
Proof.
  unfold replace_accepts.
  destruct (decide (replaceable idx c)) as [Hin|Hout]; [|tauto].
  destruct (Chain.blocks c !! Z.to_nat idx) as [cur|] eqn:Hcur.
  - destruct (decide (header cur = header block)) as [Heq|Hne].
    + left. split; [exact Hin|]. exists cur. auto.
    + right. intros [_ (cur' & Hc & Hh)]. congruence.
  - right. intros [_ (cur' & Hc & _)]. discriminate Hc.
Qed.

Lemma replace_rejects (idx : Z) (block : Block) (c : Chain.t) :
  ~ replace_accepts idx block c -> Chain.replace idx block c = (c, Ok false).
Proof.
  intros Hrej. destruct (decide (replaceable idx c)) as [Hin|Hout].
  - destruct (replace_in_range idx block c Hin) as (cur & Hcur & ->).
    destruct (Block.ne cur block) eqn:Hne; [reflexivity|].
    exfalso. apply Hrej. split; [exact Hin|].
    exists cur. split; [exact Hcur|]. apply ne_false_iff, Hne.
  - apply replace_out_of_range, Hout.
Qed.

Lemma replace_accepted (idx : Z) (block : Block) (c : Chain.t) :
  replace_accepts idx block c ->
  exists cur, Chain.blocks c !! Z.to_nat idx = Some cur /\
  header cur = header block /\
  let cur' := Block.set_body cur (Block.get_body block) in
  Chain.replace idx block c =
  match body cur' with
  | None =>
      (Chain.mk (<[Z.to_nat idx := cur']> (Chain.blocks c)) (Chain.cost c)
         (Chain.mined_blobs c), Ok true)
  | Some l =>
      (Chain.mk (<[Z.to_nat idx := cur']> (Chain.blocks c)) (Chain.cost c)
         (index_blobs idx 0 l (Chain.mined_blobs c)),
       if blobs_decode l then Ok true else Raise DecodeError)
  end.
Proof.
  intros [Hin (cur & Hcur & Hhdr)].
  destruct (replace_in_range idx block c Hin) as (cur0 & Hcur0 & Heq).
  assert (cur0 = cur) as -> by congruence.
  exists cur. split; [exact Hcur|]. split; [exact Hhdr|]. cbv zeta.
  rewrite Heq, (proj2 (ne_false_iff cur block) Hhdr). cbv zeta.
  rewrite add_mined_blobs_eq.
  destruct (body (Block.set_body cur (Block.get_body block))) as [l|];
    [|reflexivity].
  unfold decoded_or_raise. destruct (blobs_decode l); reflexivity.
Qed.

(** C2, as amended.  [replace] returns false exactly when it does not
    accept, that is, unless [0 < idx < len(blocks)] and the block given has
    the header of [blocks[idx]]; the chain is then unchanged.  It returns
    true only when it accepts.  When it accepts and [get_body()] of the
    block given is a body whose blobs all parse, it returns true, the block
    at [idx] has that body and its old header, and the cost is as before. *)
Theorem replace_spec (idx : Z) (block : Block) (c : Chain.t) :
  (snd (Chain.replace idx block c) = Ok false <-> ~ replace_accepts idx block c)
  /\ (snd (Chain.replace idx block c) = Ok false ->
      fst (Chain.replace idx block c) = c)
  /\ (snd (Chain.replace idx block c) = Ok true -> replace_accepts idx block c)
  /\ (forall l,
      replace_accepts idx block c ->
      Block.get_body block = PyBody l ->
      blobs_decode l = true ->
      snd (Chain.replace idx block c) = Ok true
      /\ exists cur cur',
           Chain.blocks c !! Z.to_nat idx = Some cur
        /\ Chain.blocks (fst (Chain.replace idx block c)) !! Z.to_nat idx
           = Some cur'
        /\ header cur' = header cur
        /\ Block.has_body cur' = true
        /\ body cur' = Some l
        /\ Block.get_body cur' = Block.get_body block
        /\ Chain.cost (fst (Chain.replace idx block c)) = Chain.cost c).
Proof.
  destruct (classic_accepts idx block c) as [Hacc|Hrej].
  - destruct (replace_accepted idx block c Hacc) as (cur & Hcur & Hhdr & Heq).
    cbv zeta in Heq.
    assert (Hnf : snd (Chain.replace idx block c) <> Ok false).
    { rewrite Heq. destruct (body _); [destruct (blobs_decode _)|]; discriminate. }
    split; [split; [intros Hf; contradiction|intros Hn; contradiction]|].
    split; [intros Hf; contradiction|]. split; [intros _; exact Hacc|].
    intros l _ Hbody Hdec. rewrite Heq, Hbody. cbn [Block.set_body body].
    rewrite Hdec. cbn [fst snd Chain.blocks Chain.cost].
    split; [reflexivity|].
    exists cur, (mkBlock (header cur) (Some l)).
    split; [exact Hcur|].
    split; [apply list_lookup_insert_eq, (lookup_lt_Some _ _ _ Hcur)|].
    repeat split; reflexivity.
  - rewrite (replace_rejects idx block c Hrej). cbn [fst snd].
    split; [split; auto|]. split; [reflexivity|].
    split; [discriminate|]. intros l Hacc. contradiction.
Qed.

End Replace.

(** ** [replace] on the reference collaborators *)
Section ReplaceExamples.
Import Reference.

(** C2, counterexample.  On the chain [genesis, block_1], [replace(1, b)]
    with [b] the header of [block_1] over a body holding a blob that does
    not parse is accepted and yet raises [DecodeError] instead of returning
    true; with [b] the header of [block_1] alone, and [get_body()] of a
    bodiless block [None], it returns true and leaves [blocks[1]] without a
    body. *)
Lemma replace_not_as_specified :
  ~ replace_as_specified (collab := with_none) 1
      (mkBlock (header block_1) (Some [blob_malformed])) (chain_1 with_none)
  /\ ~ replace_as_specified (collab := with_none) 1
      (header_only block_1) (chain_1 with_none).
Proof.
  split.
  - intros [Hiff _].
    assert (Hacc : replace_accepts 1
              (mkBlock (header block_1) (Some [blob_malformed]))
              (chain_1 with_none)).
    { split; [vm_compute; split; reflexivity|].
      exists block_1. split; reflexivity. }
    apply Hiff in Hacc. vm_compute in Hacc. discriminate Hacc.
  - intros (_ & Hbody & _).
    destruct Hbody as (cur' & Hcur & Hhas & _); [vm_compute; reflexivity|].
    vm_compute in Hcur. injection Hcur as <-. discriminate Hhas.
Qed.

(** [replace] with the same header and another body that parses: the new
    blob is entered at (1, 0), and the location of the blob that was there
    stays. *)
Example replace_block_1 :
  Chain.replace (collab := with_none) 1
    (mkBlock (header block_1) (Some [blob_b])) (chain_1 with_none)
  = (Chain.mk [ref_genesis; mkBlock (header block_1) (Some [blob_b])] 2
       (<[ref_py_hash [x62] := {[ (1, 0)%Z ]}]>
          {[ ref_py_hash [x61] := {[ (1, 0)%Z ]} ]}),
     Ok true).
Proof. vm_compute. reflexivity. Qed.

End ReplaceExamples.

(** ** [add] and the body of the block it is given *)
Section Add.
Context {collab : Collaborators}.

Lemma add_bodiless (block : Block) (c : Chain.t) (l : list bytes) :
  Block.has_body block = false ->
  Block.get_body block = PyBody l ->
  Chain.add block c
  = (Chain.mk (Chain.blocks c ++ [block]) (Chain.cost c + Block.get_cost block)
       (Chain.mined_blobs c), Ok tt).
Proof.
  intros Hno Hget. rewrite add_eq, Hget. cbv zeta.
  rewrite add_mined_blobs_eq. unfold Block.has_body in Hno.
  destruct (body block); [discriminate Hno|]. reflexivity.
Qed.

Lemma add_with_body (block : Block) (c : Chain.t) (l : list bytes) :
  body block = Some l ->
  blobs_decode l = true ->
  Chain.add block c
  = (Chain.mk (Chain.blocks c ++ [block]) (Chain.cost c + Block.get_cost block)
       (index_blobs (Z.of_nat (length (Chain.blocks c))) 0 l (Chain.mined_blobs c)),
     Ok tt).
Proof.
  intros Hbody Hdec. rewrite add_eq. unfold Block.get_body. rewrite Hbody.
  cbv zeta. rewrite add_mined_blobs_eq, Hbody. unfold decoded_or_raise.
  rewrite Hdec. reflexivity.
Qed.

Lemma add_none (block : Block) (c : Chain.t) :
  Block.get_body block = PyNone -> Chain.add block c = (c, Raise AttributeError).
Proof. intros Hget. rewrite add_eq, Hget. reflexivity. Qed.

(** C10.  [add] reads [block.get_body().blobs] before anything else.  So it
    returns only if [get_body()] is an object with [blobs]; if it is not,
    [add] raises [AttributeError] and the chain is as before.  The test
    [has_body()] guards the update of the index alone: on a block without a
    body the update returns at once and changes nothing, and [add] appends
    that block, with its cost, exactly when [get_body()] has [blobs].  In
    [decode], a first block that decodes to one without a body, with
    [get_body()] giving [None] for such blocks, makes [decode] raise
    [AttributeError]. *)
Theorem add_evaluates_blobs_first (block : Block) (c : Chain.t) :
  (forall c', Chain.add block c = (c', Ok tt) ->
     exists l, Block.get_body block = PyBody l)
  /\ (Block.get_body block = PyNone ->
      Chain.add block c = (c, Raise AttributeError))
  /\ (Block.has_body block = false ->
      forall idx, Chain.__add_mined_blobs idx block c = (c, Ok tt))
  /\ (Block.has_body block = false ->
      forall l, Block.get_body block = PyBody l ->
      Chain.add block c
      = (Chain.mk (Chain.blocks c ++ [block])
           (Chain.cost c + Block.get_cost block) (Chain.mined_blobs c), Ok tt))
  /\ (forall data has_bodies slot record records,
      chain_parse data = Some (slot :: record :: records) ->
      block_decode record has_bodies = Some block ->
      Block.has_body block = false ->
      bodiless_get_body = PyNone ->
      Chain.decode data has_bodies = Raise AttributeError).
Proof.
  split; [|split; [|split; [|split]]].
  - intros c' Hadd. rewrite add_eq in Hadd.
    destruct (Block.get_body block) as [|l]; [discriminate Hadd|eauto].
  - apply add_none.
  - intros Hno idx. rewrite add_mined_blobs_eq. unfold Block.has_body in Hno.
    destruct (body block); [discriminate Hno|reflexivity].
  - intros Hno l Hget. apply (add_bodiless block c l Hno Hget).
  - intros data has_bodies slot record records Hparse Hdec Hno Hnone.
    unfold Chain.decode. rewrite Hparse. cbn [drop Chain.decode_loop].
    unfold Block.decode. rewrite Hdec, add_none; [reflexivity|].
    unfold Block.get_body. unfold Block.has_body in Hno.
    destruct (body block); [discriminate Hno|exact Hnone].
Qed.

End Add.

(** ** [decode] *)
Section Decode.
Context {collab : Collaborators}.

Lemma decode_loop_ok (records : list bytes) (has_bodies : bool) (c c' : Chain.t) :
  Chain.decode_loop records has_bodies c = Ok c' <->
  exists bs, mapM (fun r => block_decode r has_bodies) records = Some bs
             /\ add_all bs c = Ok c'.
Proof.
  revert c. induction records as [|r records IH]; intros c.
  - cbn. split.
    + intros Hc. exists []. auto.
    + intros (bs & Hbs & Hadd). injection Hbs as <-. exact Hadd.
  - cbn [Chain.decode_loop mapM]. unfold Block.decode.
    destruct (block_decode r has_bodies) as [b|]; cbn.
    + destruct (Chain.add b c) as [c1 [[]|e]] eqn:Hadd.
      * rewrite IH. split.
        -- intros (bs & Hbs & Hall). exists (b :: bs). rewrite Hbs. cbn.
           rewrite Hadd. auto.
        -- intros (bs & Hbs & Hall).
           destruct (mapM _ records) as [bs'|]; [|discriminate Hbs].
           cbn in Hbs. injection Hbs as <-. cbn in Hall. rewrite Hadd in Hall.
           eauto.
      * split; [discriminate|]. intros (bs & Hbs & Hall).
        destruct (mapM _ records) as [bs'|]; [|discriminate Hbs].
        cbn in Hbs. injection Hbs as <-. cbn in Hall. rewrite Hadd in Hall.
        discriminate Hall.
    + split; [discriminate|]. intros (bs & Hbs & _). discriminate Hbs.
Qed.

Lemma decode_loop_first_failure (pre : list bytes) (record : bytes)
    (post : list bytes) (has_bodies : bool) (bs : list Block) (c c' : Chain.t) :
  mapM (fun r => block_decode r has_bodies) pre = Some bs ->
  add_all bs c = Ok c' ->
  block_decode record has_bodies = None ->
  Chain.decode_loop (pre ++ record :: post) has_bodies c = Raise DecodeError.
Proof.
  revert bs c. induction pre as [|r pre IH]; intros bs c Hbs Hall Hfail.
  - cbn. unfold Block.decode. rewrite Hfail. reflexivity.
  - cbn [app Chain.decode_loop]. cbn [mapM] in Hbs. unfold Block.decode.
    destruct (block_decode r has_bodies) as [b|]; [|discriminate Hbs].
    cbn in Hbs. destruct (mapM _ pre) as [bs'|] eqn:Hpre; [|discriminate Hbs].
    cbn in Hbs. injection Hbs as <-. cbn in Hall.
    destruct (Chain.add b c) as [c1 [[]|e]]; [|discriminate Hall].
    apply (IH bs' c1); auto.
Qed.

Lemma decode_loop_any_failure (records : list bytes) (has_bodies : bool)
    (c : Chain.t) (record : bytes) :
  record ∈ records -> block_decode record has_bodies = None ->
  exists e, Chain.decode_loop records has_bodies c = Raise e.
Proof.
  intros Hin Hfail.
  destruct (Chain.decode_loop records has_bodies c) as [c'|e] eqn:Hloop;
    [|eauto].
  apply decode_loop_ok in Hloop as (bs & Hbs & _).
  apply mapM_Some_1 in Hbs.
  apply list_elem_of_lookup in Hin as [i Hi].
  destruct (Forall2_lookup_l _ _ _ _ _ Hbs Hi) as (b & _ & Hb). congruence.
Qed.

(** [decode], step by step.  It parses the chain message, and raises
    [DecodeError] if it does not parse.  It leaves out the first record: what that record is
    makes no difference.  It returns a chain exactly when every later record
    decodes with [Block.decode] and the flag given and every [add] of the
    decoded blocks, in order, onto the chain of [__init__] returns; the
    chain returned is the one those calls of [add] leave.  When a record
    fails to decode after the records before it were decoded and added, it
    raises [DecodeError]; whenever some record fails to decode, it raises
    and returns no chain. *)
Theorem decode_spec (data : bytes) (has_bodies : bool) :
  (chain_parse data = None -> Chain.decode data has_bodies = Raise DecodeError)
  /\ (forall c,
      Chain.decode data has_bodies = Ok c <->
      exists records bs,
        chain_parse data = Some records
        /\ mapM (fun r => block_decode r has_bodies) (drop 1 records) = Some bs
        /\ add_all bs Chain.__init__ = Ok c)
  /\ (forall data' slot slot' records,
      chain_parse data = Some (slot :: records) ->
      chain_parse data' = Some (slot' :: records) ->
      Chain.decode data' has_bodies = Chain.decode data has_bodies)
  /\ (forall records pre record post bs c,
      chain_parse data = Some records ->
      drop 1 records = pre ++ record :: post ->
      mapM (fun r => block_decode r has_bodies) pre = Some bs ->
      add_all bs Chain.__init__ = Ok c ->
      block_decode record has_bodies = None ->
      Chain.decode data has_bodies = Raise DecodeError)
  /\ (forall records record,
      chain_parse data = Some records ->
      record ∈ drop 1 records ->
      block_decode record has_bodies = None ->
      exists e, Chain.decode data has_bodies = Raise e).
Proof.
  unfold Chain.decode. split; [intros ->; reflexivity|].
  split; [|split; [|split]].
  - intros c. destruct (chain_parse data) as [records|].
    + rewrite decode_loop_ok. split.
      * intros (bs & Hbs & Hall). exists records, bs. auto.
      * intros (records' & bs & Hrec & Hbs & Hall).
        injection Hrec as <-. eauto.
    + split; [discriminate|]. intros (records & bs & Hrec & _). discriminate Hrec.
  - intros data' slot slot' records -> ->. reflexivity.
  - intros records pre record post bs c -> Hdrop Hbs Hall Hfail.
    rewrite Hdrop. apply (decode_loop_first_failure pre record post _ bs _ c); auto.
  - intros records record -> Hin Hfail.
    apply (decode_loop_any_failure _ _ _ record Hin Hfail).
Qed.

(** What [add] can raise: [AttributeError], from [get_body()] being [None],
    with the chain as before, or [DecodeError], from a blob. *)
Lemma add_raises (block : Block) (c c' : Chain.t) (e : exn) :
  Chain.add block c = (c', Raise e) ->
  (e = AttributeError /\ Block.get_body block = PyNone /\ c' = c)
  \/ e = DecodeError.
Proof.
  intros Hadd. rewrite add_eq in Hadd.
  destruct (Block.get_body block) as [|l0].
  - injection Hadd as <- <-. auto.
  - cbv zeta in Hadd. rewrite add_mined_blobs_eq in Hadd.
    destruct (body block) as [l|]; [|discriminate Hadd].
    unfold decoded_or_raise in Hadd.
    destruct (blobs_decode l); [discriminate Hadd|].
    injection Hadd as _ <-. auto.
Qed.

Lemma get_body_none (block : Block) :
  Block.get_body block = PyNone -> bodiless_get_body = PyNone.
Proof.
  unfold Block.get_body. destruct (body block); [discriminate|auto].
Qed.

Lemma decode_loop_failure_kinds (records : list bytes) (has_bodies : bool)
    (c : Chain.t) (record : bytes) :
  record ∈ records -> block_decode record has_bodies = None ->
  Chain.decode_loop records has_bodies c = Raise DecodeError
  \/ (Chain.decode_loop records has_bodies c = Raise AttributeError
      /\ bodiless_get_body = PyNone).
Proof.
  revert c. induction records as [|r records IH]; intros c Hin Hfail;
    [inversion Hin|].
  cbn [Chain.decode_loop]. unfold Block.decode.
  destruct (block_decode r has_bodies) as [b|] eqn:Hr; [|auto].
  apply elem_of_cons in Hin as [->|Hin]; [congruence|].
  destruct (Chain.add b c) as [c1 [[]|e]] eqn:Hadd; [apply (IH c1 Hin Hfail)|].
  destruct (add_raises b c c1 e Hadd) as [(-> & Hnone & _)| ->]; [|auto].
  right. split; [reflexivity|]. apply (get_body_none b Hnone).
Qed.

(** Whenever the chain message does not parse or a record after the first
    does not decode, [decode] raises [DecodeError], or else
    [AttributeError], and that only if [get_body()] of a block without a
    body is [None]: where it has [blobs], [decode] is as specified. *)
Lemma decode_failure_kinds (data : bytes) (has_bodies : bool) :
  (chain_parse data = None
   \/ exists records record,
        chain_parse data = Some records
        /\ record ∈ drop 1 records
        /\ block_decode record has_bodies = None) ->
  (Chain.decode data has_bodies = Raise DecodeError
   \/ (Chain.decode data has_bodies = Raise AttributeError
       /\ bodiless_get_body = PyNone))
  /\ (forall l0, bodiless_get_body = PyBody l0 ->
      Chain.decode data has_bodies = Raise DecodeError).
Proof.
  intros Hfail.
  assert (Hkinds : Chain.decode data has_bodies = Raise DecodeError
            \/ (Chain.decode data has_bodies = Raise AttributeError
                /\ bodiless_get_body = PyNone)).
  { unfold Chain.decode.
    destruct Hfail as [->|(records & record & -> & Hin & Hrec)]; [auto|].
    apply (decode_loop_failure_kinds _ _ _ record Hin Hrec). }
  split; [exact Hkinds|].
  intros l0 Hl0. destruct Hkinds as [Hdec|[_ Hnone]]; [exact Hdec|congruence].
Qed.

End Decode.

(** ** [decode] on the reference collaborators *)
Section DecodeExamples.
Import Reference.


End DecodeExamples.

(** ** [next] *)
Section Next.
Context {collab : Collaborators}.

Lemma builder_add_all (blobs : list bytes) (bb : BlockBuilder.t) :
  fold_left BlockBuilder.add blobs bb
  = BlockBuilder.mk (BlockBuilder.parent_hash bb)
      (BlockBuilder.target_difficulty bb) (BlockBuilder.blobs bb ++ blobs).
Proof.
  revert bb. induction blobs as [|blob blobs IH]; intros bb; cbn [fold_left].
  - rewrite app_nil_r. destruct bb; reflexivity.
  - rewrite IH. cbn. rewrite <- app_assoc. reflexivity.
Qed.

Lemma mine_sound (fuel : nat) (prev : bytes) (difficulty k n : Z) :
  BlockBuilder.mine fuel prev difficulty k = Some n ->
  meets_target (mkHeader prev n difficulty) = true.
Proof.
  revert k. induction fuel as [|fuel IH]; intros k; cbn; [discriminate|].
  destruct (meets_target (mkHeader prev k difficulty)) eqn:Hk.
  - intros Hn. injection Hn as <-. exact Hk.
  - apply IH.
Qed.

Lemma mine_complete (fuel : nat) (prev : bytes) (difficulty k n : Z) :
  (k <= n)%Z -> (Z.to_nat (n - k) < fuel)%nat ->
  meets_target (mkHeader prev n difficulty) = true ->
  exists m, BlockBuilder.mine fuel prev difficulty k = Some m.
Proof.
  revert k. induction fuel as [|fuel IH]; intros k Hle Hfuel Hn; [lia|].
  cbn. destruct (meets_target (mkHeader prev k difficulty)) eqn:Hk; [eauto|].
  assert (k <> n) by (intros ->; congruence).
  apply IH; [lia|lia|exact Hn].
Qed.

Lemma next_eq (fuel : nat) (difficulty : Z) (blobs : list bytes) (c : Chain.t) :
  Chain.next fuel difficulty blobs c =
  (c, match last (Chain.blocks c) with
      | None => Raise IndexError
      | Some prev =>
          Ok (BlockBuilder.build fuel
                (BlockBuilder.mk (Block.hash prev) difficulty blobs))
      end).
Proof.
  unfold Chain.next. unfold mbind, method_bind, lift.
  rewrite py_getitem_last. destruct (last (Chain.blocks c)); cbn [or_raise].
  - rewrite builder_add_all. reflexivity.
  - reflexivity.
Qed.

(** C8.  [next] leaves the chain as it is: blocks, cost and index.  The
    block it returns names the hash of the last block of the chain as its
    [prev_hash]; it has the difficulty and the blobs given and passes its
    own check.  It does return a block once the builder may try enough
    nonces, provided some nonce from 0 on meets the target. *)
Theorem next_spec (fuel : nat) (difficulty : Z) (blobs : list bytes) (c : Chain.t) :
  fst (Chain.next fuel difficulty blobs c) = c
  /\ (forall b,
      snd (Chain.next fuel difficulty blobs c) = Ok (Some b) ->
      exists tail,
        last (Chain.blocks c) = Some tail
        /\ Block.prev_hash b = Block.hash tail
        /\ h_difficulty (header b) = difficulty
        /\ body b = Some blobs
        /\ Block.is_valid b = true)
  /\ (forall tail n,
      last (Chain.blocks c) = Some tail ->
      (0 <= n)%Z ->
      meets_target (mkHeader (Block.hash tail) n difficulty) = true ->
      forall fuel', (Z.to_nat n < fuel')%nat ->
      exists b, Chain.next fuel' difficulty blobs c = (c, Ok (Some b))).
Proof.
  rewrite next_eq. cbn [fst snd]. split; [reflexivity|]. split.
  - intros b Hb. destruct (last (Chain.blocks c)) as [tail|]; [|discriminate Hb].
    exists tail. split; [reflexivity|]. injection Hb as Hb.
    unfold BlockBuilder.build in Hb. cbn in Hb.
    destruct (BlockBuilder.mine fuel _ difficulty 0) as [n|] eqn:Hmine;
      [|discriminate Hb].
    injection Hb as <-. repeat split.
    apply (mine_sound _ _ _ _ _ Hmine).
  - intros tail n Htail Hn Hvalid fuel' Hfuel. rewrite next_eq, Htail.
    destruct (mine_complete fuel' (Block.hash tail) difficulty 0 n)
      as [m Hm]; [lia|lia|exact Hvalid|].
    unfold BlockBuilder.build. cbn. rewrite Hm. eauto.
Qed.

End Next.

Example next_on_genesis :
  let C := Reference.with_none in
  Chain.next 12 1 [Reference.blob_a] Chain.__init__
  = (Chain.__init__,
     Ok (Some (Reference.mined (Block.hash Block.genesis) 11 1 [Reference.blob_a]))).
Proof. vm_compute. reflexivity. Qed.

(** ** [encode] then [decode] *)
Section RoundTrip.
Context {collab : Collaborators}.

Lemma decode_loop_with_bodies (rest : list Block) (c0 : Chain.t) :
  (forall b, Block.has_body b = true ->
     block_decode (block_encode b true) true = Some b) ->
  (forall b, b ∈ rest -> exists l, body b = Some l /\ blobs_decode l = true) ->
  exists c',
    Chain.decode_loop (map (fun b => Block.encode b true) rest) true c0 = Ok c'
    /\ Chain.blocks c' = Chain.blocks c0 ++ rest.
Proof.
  intros Hcodec. revert c0. induction rest as [|b rest IH]; intros c0 Hrest.
  - exists c0. cbn. rewrite app_nil_r. auto.
  - destruct (Hrest b) as (l & Hbody & Hdec); [apply elem_of_cons; auto|].
    cbn [map Chain.decode_loop]. unfold Block.decode, Block.encode.
    rewrite Hcodec by (unfold Block.has_body; rewrite Hbody; reflexivity).
    rewrite (add_with_body b c0 l Hbody Hdec).
    destruct (IH (Chain.mk (Chain.blocks c0 ++ [b])
                    (Chain.cost c0 + Block.get_cost b)
                    (index_blobs (Z.of_nat (length (Chain.blocks c0))) 0 l
                       (Chain.mined_blobs c0)))) as (c' & Hloop & Hblocks).
    { intros b' Hin. apply Hrest. apply elem_of_cons. auto. }
    exists c'. split; [exact Hloop|]. rewrite Hblocks. cbn [Chain.blocks].
    rewrite <- app_assoc. reflexivity.
Qed.

Lemma decode_loop_without_bodies (rest : list Block) (c0 : Chain.t) (l0 : list bytes) :
  (forall b, block_decode (block_encode b false) false
             = Some (mkBlock (header b) None)) ->
  bodiless_get_body = PyBody l0 ->
  exists c',
    Chain.decode_loop (map (fun b => Block.encode b false) rest) false c0 = Ok c'
    /\ Chain.blocks c'
       = Chain.blocks c0 ++ map (fun b => mkBlock (header b) None) rest.
Proof.
  intros Hcodec Habsent. revert c0. induction rest as [|b rest IH]; intros c0.
  - exists c0. cbn. rewrite app_nil_r. auto.
  - cbn [map Chain.decode_loop]. unfold Block.decode, Block.encode.
    rewrite Hcodec.
    rewrite (add_bodiless (mkBlock (header b) None) c0 l0 eq_refl Habsent).
    destruct (IH (Chain.mk (Chain.blocks c0 ++ [mkBlock (header b) None])
                    (Chain.cost c0 + Block.get_cost (mkBlock (header b) None))
                    (Chain.mined_blobs c0))) as (c' & Hloop & Hblocks).
    exists c'. split; [exact Hloop|]. rewrite Hblocks. cbn [Chain.blocks].
    rewrite <- app_assoc. reflexivity.
Qed.

(** C3, as amended.  Let the wire formats be lawful and the block at index 0
    of a chain be the genesis block.  If every later block has a body whose
    blobs all parse, decoding with bodies what [encode(True)] gives returns a
    chain with the same blocks, headers and bodies.  If [get_body()] of a
    block without a body is an object with [blobs], decoding without bodies
    what [encode(False)] gives returns a chain with the same headers whose
    blocks after the first have no body. *)
Theorem encode_decode_roundtrip (c : Chain.t) (rest : list Block) :
  codec_lawful ->
  Chain.blocks c = Block.genesis :: rest ->
  ((forall b, b ∈ rest -> exists l, body b = Some l /\ blobs_decode l = true) ->
   exists c', Chain.decode (Chain.encode c true) true = Ok c'
              /\ Chain.blocks c' = Chain.blocks c)
  /\ (forall l0, bodiless_get_body = PyBody l0 ->
      exists c', Chain.decode (Chain.encode c false) false = Ok c'
              /\ map header (Chain.blocks c') = map header (Chain.blocks c)
              /\ forall i b, Chain.blocks c' !! S i = Some b ->
                             Block.has_body b = false).
Proof.
  intros (Hchain & Hwith & Hwithout) Hblocks.
  unfold Chain.decode, Chain.encode. rewrite !Hchain, Hblocks.
  cbn [map drop]. split.
  - intros Hrest.
    destruct (decode_loop_with_bodies rest Chain.__init__ Hwith Hrest)
      as (c' & Hloop & Hc').
    exists c'. split; [exact Hloop|]. rewrite Hc'. reflexivity.
  - intros l0 Habsent.
    destruct (decode_loop_without_bodies rest Chain.__init__ l0 Hwithout Habsent)
      as (c' & Hloop & Hc').
    exists c'. split; [exact Hloop|]. rewrite Hc'. cbn [Chain.__init__ Chain.blocks app].
    split.
    + cbn [map]. f_equal. rewrite map_map. reflexivity.
    + intros i b Hb.
      assert (Hb' : ((fun b0 => mkBlock (header b0) None) <$> rest) !! i = Some b)
        by exact Hb.
      rewrite list_lookup_fmap in Hb'.
      destruct (rest !! i); [|discriminate Hb']. injection Hb' as <-. reflexivity.
Qed.

End RoundTrip.

(** ** The reference wire formats are lawful *)
Section ReferenceCodec.
Import Reference.

Lemma positive_of_bytes_of_positive (p : positive) :
  positive_of_bytes (bytes_of_positive p) = Some p.
Proof. induction p as [p IH|p IH|]; cbn; rewrite ?IH; reflexivity. Qed.

Lemma loads_dumps `{Countable A} (a : A) : loads (dumps a) = Some a.
Proof.
  unfold loads, dumps. rewrite positive_of_bytes_of_positive. cbn.
  apply decode_encode.
Qed.

Lemma ref_block_roundtrip (b : Block) (with_body : bool) :
  ref_block_decode (ref_block_encode b with_body) with_body
  = Some (block_of_record (record_of_block b with_body) with_body).
Proof.
  unfold ref_block_decode, ref_block_encode. rewrite loads_dumps. reflexivity.
Qed.

Lemma reference_codec_lawful (absent : PyObj) :
  codec_lawful (collab := collaborators absent).
Proof.
  split; [|split].
  - intros records. apply (loads_dumps records).
  - intros b Hbody.
    change (ref_block_decode (ref_block_encode b true) true = Some b).
    rewrite ref_block_roundtrip. destruct b as [[p n d] ob]. reflexivity.
  - intros b.
    change (ref_block_decode (ref_block_encode b false) false
            = Some (mkBlock (header b) None)).
    rewrite ref_block_roundtrip. destruct b as [[p n d] ob]. reflexivity.
Qed.

End ReferenceCodec.

(** ** The round trip on the reference collaborators *)
Section RoundTripExamples.
Import Reference.

(** The round trip of the chain [genesis, block_1], with and without
    bodies, [get_body()] of a bodiless block being an empty body. *)
Lemma encode_decode_roundtrip_witness :
  (exists c',
     Chain.decode (collab := with_empty_body)
       (Chain.encode (collab := with_empty_body) (chain_1 with_empty_body) true) true = Ok c'
     /\ Chain.blocks c' = Chain.blocks (chain_1 with_empty_body))
  /\ (exists c',
     Chain.decode (collab := with_empty_body)
       (Chain.encode (collab := with_empty_body) (chain_1 with_empty_body) false) false = Ok c'
     /\ map header (Chain.blocks c') = map header (Chain.blocks (chain_1 with_empty_body))
     /\ forall i b, Chain.blocks c' !! S i = Some b ->
                    Block.has_body b = false).
Proof.
  destruct (encode_decode_roundtrip (collab := with_empty_body)
              (chain_1 with_empty_body) [block_1]
              (reference_codec_lawful (PyBody [])) eq_refl)
    as [Hwith Hwithout].
  split.
  - apply Hwith. intros b Hb. apply list_elem_of_singleton in Hb as ->.
    exists [blob_a]. split; reflexivity.
  - apply (Hwithout []). reflexivity.
Defined.

(** C3, counterexample.  [insert(0, block_1)] on the chain of [__init__]
    puts [block_1] before the genesis block.  [encode(True)] then writes
    [block_1] into the slot [decode] leaves out, and [decode] returns the
    chain [genesis, genesis]: its first header is not that of [block_1]. *)
Lemma roundtrip_not_as_specified :
  Chain.blocks (chain_0 with_empty_body) = [block_1; ref_genesis]
  /\ (exists c',
        Chain.decode (collab := with_empty_body)
          (Chain.encode (collab := with_empty_body) (chain_0 with_empty_body) true) true = Ok c'
        /\ Chain.blocks c' = [ref_genesis; ref_genesis])
  /\ ~ roundtrip_as_specified (collab := with_empty_body) (chain_0 with_empty_body).
Proof.
  split; [vm_compute; reflexivity|]. split.
  - eexists. split; [vm_compute; reflexivity|]. reflexivity.
  - intros [(c' & Hdec & Hblocks) _].
    vm_compute in Hdec. injection Hdec as <-.
    vm_compute in Hblocks. discriminate Hblocks.
Qed.

(** With [get_body()] of a bodiless block [None], decoding the headers of
    the chain [genesis, block_1] raises in [add]. *)
Example decode_headers_with_none :
  Chain.decode (collab := with_none)
    (Chain.encode (collab := with_none) (chain_1 with_none) false) false = Raise AttributeError.
Proof. vm_compute. reflexivity. Qed.

End RoundTripExamples.

(** ** The index of mined blobs *)
Section MinedBlobs.
Context {collab : Collaborators}.

Lemma locations_defaultdict_add (k0 : Z) (x : Z * Z) (d : gmap Z (gset (Z * Z)))
    (k : Z) (y : Z * Z) :
  y ∈ locations k (defaultdict_add k0 x d) <->
  y ∈ locations k d \/ (k = k0 /\ y = x).
Proof.
  unfold locations, defaultdict_add.
  destruct (decide (k0 = k)) as [->|Hne].
  - rewrite lookup_insert_eq. cbn. rewrite elem_of_union, elem_of_singleton.
    tauto.
  - rewrite lookup_insert_ne by exact Hne. split; [tauto|].
    intros [Hy|[-> _]]; [exact Hy|congruence].
Qed.

Lemma locations_index_blobs (block_idx k0 : Z) (l : list bytes)
    (d : gmap Z (gset (Z * Z))) (k i j : Z) :
  (i, j) ∈ locations k (index_blobs block_idx k0 l d) ->
  (i, j) ∈ locations k d
  \/ (i = block_idx /\ exists n blob msg_blob,
        j = (k0 + Z.of_nat n)%Z /\ l !! n = Some blob
        /\ blob_message_parse blob = Some msg_blob /\ py_hash msg_blob = k).
Proof.
  revert k0 d. induction l as [|blob l IH]; intros k0 d; cbn [index_blobs].
  - auto.
  - destruct (blob_message_parse blob) as [m|] eqn:Hm; [|auto].
    intros Hin. apply IH in Hin as [Hin|[-> (n & blob' & m' & -> & Hl & Hm' & Hk)]].
    + apply locations_defaultdict_add in Hin as [Hin|[-> Hx]]; [auto|].
      injection Hx as -> ->. right. split; [reflexivity|].
      exists 0, blob, m. repeat split; [lia|exact Hm].
    + right. split; [reflexivity|]. exists (S n), blob', m'.
      repeat split; [lia|exact Hl|exact Hm'|exact Hk].
Qed.

(** [add], when it returns, keeps the index sound: the new block goes to
    the index its blobs are entered under. *)
Lemma add_keeps_index_sound (block : Block) (c c' : Chain.t) :
  index_sound c -> Chain.add block c = (c', Ok tt) -> index_sound c'.
Proof.
  intros Hsound Hadd. rewrite add_eq in Hadd.
  destruct (Block.get_body block); [discriminate Hadd|]. cbv zeta in Hadd.
  rewrite add_mined_blobs_eq in Hadd.
  assert (Hold : forall k i j, (i, j) ∈ locations k (Chain.mined_blobs c) ->
    exists b l blob msg_blob,
      (0 <= i)%Z /\ (0 <= j)%Z
      /\ (Chain.blocks c ++ [block]) !! Z.to_nat i = Some b
      /\ body b = Some l /\ l !! Z.to_nat j = Some blob
      /\ blob_message_parse blob = Some msg_blob /\ py_hash msg_blob = k).
  { intros k i j Hin.
    destruct (Hsound k i j Hin) as (b & l & blob & m & Hi & Hj & Hb & Hrest).
    exists b, l, blob, m. split; [exact Hi|]. split; [exact Hj|].
    split; [|exact Hrest]. apply lookup_app_l_Some, Hb. }
  destruct (body block) as [l|] eqn:Hbody.
  - unfold decoded_or_raise in Hadd.
    destruct (blobs_decode l); [|discriminate Hadd].
    injection Hadd as <-. intros k i j Hin. cbn [Chain.mined_blobs] in Hin.
    cbn [Chain.blocks].
    apply locations_index_blobs in Hin
      as [Hin|[-> (n & blob & m & -> & Hl & Hm & Hk)]]; [apply Hold, Hin|].
    exists block, l, blob, m.
    split; [lia|]. split; [lia|].
    split; [rewrite Nat2Z.id; apply list_lookup_middle; reflexivity|].
    split; [exact Hbody|].
    split; [replace (Z.to_nat (0 + Z.of_nat n)) with n by lia; exact Hl|].
    auto.
  - injection Hadd as <-. intros k i j Hin. apply Hold, Hin.
Qed.

Lemma init_index_sound : index_sound Chain.__init__.
Proof. intros k i j Hin. cbn in Hin. inversion Hin. Qed.

End MinedBlobs.

(** ** The index on the reference collaborators *)
Section MinedBlobsExamples.
Import Reference.

(** C5, the code at a failing input.  After [add(block_1)] the only blob of
    [block_1] is indexed at (1, 0).  [insert(1, block_2)] moves [block_1] to
    index 2 and leaves that location as it was: it now names [block_2], whose
    blob at 0 hashes to another key.  The index is no longer sound. *)
Theorem insert_leaves_stale_location :
  Chain.blocks (chain_2 with_none) = [ref_genesis; block_2; block_1]
  /\ ref_blob_message_parse blob_a = Some [x61]
  /\ ref_blob_message_parse blob_b = Some [x62]
  /\ ref_py_hash [x61] <> ref_py_hash [x62]
  /\ locations (ref_py_hash [x61]) (Chain.mined_blobs (chain_2 with_none))
     = {[ (1, 0)%Z ]}
  /\ index_sound (collab := with_none) (chain_1 with_none)
  /\ ~ index_sound (collab := with_none) (chain_2 with_none).
Proof.
  split; [vm_compute; reflexivity|]. split; [reflexivity|].
  split; [reflexivity|]. split; [vm_compute; discriminate|].
  split; [vm_compute; reflexivity|]. split.
  - apply (add_keeps_index_sound (collab := with_none) block_1
             (Chain.__init__ (collab := with_none))).
    + apply init_index_sound.
    + vm_compute. reflexivity.
  - intros Hsound.
    destruct (Hsound (ref_py_hash [x61]) 1%Z 0%Z)
      as (b & l & blob & m & _ & _ & Hb & Hl & Hblob & Hm & Hk).
    { vm_compute. reflexivity. }
    vm_compute in Hb. injection Hb as <-.
    vm_compute in Hl. injection Hl as <-.
    vm_compute in Hblob. injection Hblob as <-.
    vm_compute in Hm. injection Hm as <-.
    vm_compute in Hk. discriminate Hk.
Qed.

End MinedBlobsExamples.

(** ** The theorems at work on the reference collaborators *)
Section Witnesses.
Import Reference.

(** [is_valid] on the chain [genesis, block_1], and on the chain
    [genesis, block_2, block_1], whose block at index 1 does not name the
    hash of the genesis block. *)
Lemma is_valid_spec_witness :
  Chain.is_valid (collab := with_none) (chain_1 with_none) = Ok true
  /\ Chain.is_valid (collab := with_none) (chain_2 with_none) = Ok false.
Proof.
  split.
  - apply (proj1 (is_valid_spec (collab := with_none) (chain_1 with_none))).
    split.
    + exists ref_genesis. split; reflexivity.
    + intros [|[|i]] prev cur Hp Hc; try discriminate Hc.
      injection Hp as <-. injection Hc as <-. split; reflexivity.
  - destruct (is_valid_spec (collab := with_none) (chain_2 with_none))
      as (_ & _ & _ & Hshort & _).
    apply (Hshort 0 ref_genesis block_2); [reflexivity|reflexivity| |reflexivity].
    left. vm_compute. discriminate.
Defined.

(** [replace(1, b)] on the chain [genesis, block_1], with [b] the header of
    [block_1] over the body [[blob_b]]. *)
Lemma replace_spec_witness :
  snd (Chain.replace (collab := with_none) 1
         (mkBlock (header block_1) (Some [blob_b])) (chain_1 with_none)) = Ok true
  /\ Chain.blocks
       (fst (Chain.replace (collab := with_none) 1
               (mkBlock (header block_1) (Some [blob_b])) (chain_1 with_none)))
     !! 1 = Some (mkBlock (header block_1) (Some [blob_b])).
Proof.
  destruct (replace_spec (collab := with_none) 1
              (mkBlock (header block_1) (Some [blob_b])) (chain_1 with_none))
    as (_ & _ & _ & Hacc).
  destruct (Hacc [blob_b])
    as (Hret & cur & cur' & Hcur & Hcur' & Hhdr & _ & Hbody & _).
  - split; [vm_compute; split; reflexivity|].
    exists block_1. split; reflexivity.
  - reflexivity.
  - reflexivity.
  - split; [exact Hret|]. change (Z.to_nat 1) with 1 in Hcur'. rewrite Hcur'.
    vm_compute in Hcur. injection Hcur as <-.
    destruct cur' as [h ob]. cbn in Hhdr, Hbody. subst h ob. reflexivity.
Defined.

(** [is_complete] on the chain [genesis, block_1]. *)
Lemma is_complete_spec_witness :
  Chain.is_complete (collab := with_none) (chain_1 with_none) = Ok true.
Proof.
  apply (proj1 (is_complete_spec (collab := with_none) (chain_1 with_none))).
  split.
  - vm_compute. reflexivity.
  - intros b Hb. vm_compute in Hb.
    apply elem_of_cons in Hb as [->|Hb]; [reflexivity|].
    apply list_elem_of_singleton in Hb as ->. reflexivity.
Defined.

(** [decode] of a chain message whose second block record is malformed. *)
Lemma decode_spec_witness :
  Chain.decode (collab := with_none)
    (dumps [ [] ; ref_block_encode block_1 true; blob_malformed ]) true
  = Raise DecodeError.
Proof.
  destruct (decode_spec (collab := with_none)
              (dumps [ [] ; ref_block_encode block_1 true; blob_malformed ]) true)
    as (_ & _ & _ & Hfail & _).
  apply (Hfail [ [] ; ref_block_encode block_1 true; blob_malformed ]
           [ref_block_encode block_1 true] blob_malformed [] [block_1]
           (chain_1 with_none)).
  - apply (loads_dumps [ [] ; ref_block_encode block_1 true; blob_malformed ]).
  - reflexivity.
  - vm_compute. reflexivity.
  - vm_compute. reflexivity.
  - reflexivity.
Defined.

(** [next] on the chain of [__init__]: the nonce 11 is the first to meet
    the target of difficulty 1. *)
Lemma next_spec_witness :
  exists b,
    Chain.next (collab := with_none) 12 1 [blob_a] (Chain.__init__ (collab := with_none))
    = ((Chain.__init__ (collab := with_none)), Ok (Some b)).
Proof.
  destruct (next_spec (collab := with_none) 12 1 [blob_a] (Chain.__init__ (collab := with_none)))
    as (_ & _ & Hterm).
  apply (Hterm ref_genesis 11%Z); [reflexivity|lia|reflexivity|lia].
Defined.

(** [add] of the header of [block_1] alone: it raises when [get_body()] of
    a bodiless block is [None], and appends the block, leaving the index
    alone, when it is an empty body. *)
Lemma add_evaluates_blobs_first_witness :
  Chain.add (collab := with_none) (header_only block_1)
    (Chain.__init__ (collab := with_none))
  = (Chain.__init__ (collab := with_none), Raise AttributeError)
  /\ Chain.add (collab := with_empty_body) (header_only block_1)
       (Chain.__init__ (collab := with_empty_body))
     = (Chain.mk [ref_genesis; header_only block_1] 2 ∅, Ok tt).
Proof.
  split.
  - apply (proj1 (proj2 (add_evaluates_blobs_first (collab := with_none)
                           (header_only block_1)
                           (Chain.__init__ (collab := with_none))))).
    reflexivity.
  - destruct (add_evaluates_blobs_first (collab := with_empty_body)
                (header_only block_1)
                (Chain.__init__ (collab := with_empty_body))) as (_ & _ & _ & Hadd & _).
    rewrite (Hadd eq_refl [] eq_refl). reflexivity.
Defined.

End Witnesses.

(** * Further properties of the methods *)

(** ** What [__add_mined_blobs] enters and keeps *)
Section IndexUpdates.
Context {collab : Collaborators}.

Lemma locations_index_blobs_keeps (block_idx k0 : Z) (l : list bytes)
    (d : gmap Z (gset (Z * Z))) (k : Z) (x : Z * Z) :
  x ∈ locations k d -> x ∈ locations k (index_blobs block_idx k0 l d).
Proof.
  revert k0 d. induction l as [|blob l IH]; intros k0 d Hx; cbn [index_blobs].
  - exact Hx.
  - destruct (blob_message_parse blob); [|exact Hx].
    apply IH, locations_defaultdict_add. auto.
Qed.

Lemma blobs_decode_app (l1 l2 : list bytes) :
  blobs_decode (l1 ++ l2) = blobs_decode l1 && blobs_decode l2.
Proof. unfold blobs_decode. apply forallb_app. Qed.

Lemma blobs_decode_lookup (l : list bytes) (n : nat) (blob : bytes) :
  blobs_decode l = true -> l !! n = Some blob ->
  exists msg_blob, blob_message_parse blob = Some msg_blob.
Proof.
  unfold blobs_decode. rewrite forallb_forall. intros Hall Hl.
  specialize (Hall blob). rewrite bool_decide_eq_true in Hall.
  apply Hall, list_elem_of_In, list_elem_of_lookup. eauto.
Qed.

(** The blobs before the first that does not parse are entered. *)
Lemma locations_index_blobs_enters (block_idx k0 : Z) (l : list bytes)
    (d : gmap Z (gset (Z * Z))) (n : nat) (blob msg_blob : bytes) :
  blobs_decode (take n l) = true ->
  l !! n = Some blob ->
  blob_message_parse blob = Some msg_blob ->
  (block_idx, (k0 + Z.of_nat n)%Z)
    ∈ locations (py_hash msg_blob) (index_blobs block_idx k0 l d).
Proof.
  revert k0 d n. induction l as [|b l IH]; intros k0 d n Hpre Hl Hm;
    [discriminate Hl|].
  cbn [index_blobs]. destruct n as [|n].
  - cbn in Hl. injection Hl as ->. rewrite Hm.
    apply locations_index_blobs_keeps, locations_defaultdict_add.
    right. split; [reflexivity|]. f_equal. lia.
  - cbn in Hl. change (take (S n) (b :: l)) with (b :: take n l) in Hpre.
    unfold blobs_decode in Hpre. cbn [forallb] in Hpre.
    apply andb_true_iff in Hpre as [Hb Hpre].
    apply bool_decide_eq_true in Hb as [mb Hb]. rewrite Hb.
    replace (k0 + Z.of_nat (S n))%Z with ((k0 + 1) + Z.of_nat n)%Z by lia.
    apply IH; assumption.
Qed.

(** The loop stops at the first blob that does not parse. *)
Lemma index_blobs_stops (block_idx k0 : Z) (pre : list bytes) (bad : bytes)
    (post : list bytes) (d : gmap Z (gset (Z * Z))) :
  blobs_decode pre = true ->
  blob_message_parse bad = None ->
  index_blobs block_idx k0 (pre ++ bad :: post) d = index_blobs block_idx k0 pre d.
Proof.
  revert k0 d. induction pre as [|b pre IH]; intros k0 d Hpre Hbad; cbn.
  - rewrite Hbad. reflexivity.
  - unfold blobs_decode in Hpre. cbn [forallb] in Hpre.
    apply andb_true_iff in Hpre as [Hb Hpre].
    apply bool_decide_eq_true in Hb as [mb Hb]. rewrite Hb.
    apply IH; assumption.
Qed.

Lemma add_mined_blobs_keeps (idx : Z) (block : Block) (c : Chain.t)
    (k : Z) (x : Z * Z) :
  x ∈ locations k (Chain.mined_blobs c) ->
  x ∈ locations k (Chain.mined_blobs (fst (Chain.__add_mined_blobs idx block c))).
Proof.
  intros Hx. rewrite add_mined_blobs_eq. destruct (body block); [|exact Hx].
  apply locations_index_blobs_keeps, Hx.
Qed.

(** What a call of [add] that returns has done. *)
Lemma add_returns (block : Block) (c c' : Chain.t) :
  Chain.add block c = (c', Ok tt) ->
  (exists l0, Block.get_body block = PyBody l0)
  /\ (forall l, body block = Some l -> blobs_decode l = true)
  /\ c' = Chain.mk (Chain.blocks c ++ [block])
            (Chain.cost c + Block.get_cost block)
            (match body block with
             | Some l => index_blobs (Z.of_nat (length (Chain.blocks c))) 0 l
                           (Chain.mined_blobs c)
             | None => Chain.mined_blobs c
             end).
Proof.
  intros Hadd. rewrite add_eq in Hadd.
  destruct (Block.get_body block) as [|l0]; [discriminate Hadd|].
  split; [eauto|]. cbv zeta in Hadd. rewrite add_mined_blobs_eq in Hadd.
  destruct (body block) as [l|].
  - unfold decoded_or_raise in Hadd.
    destruct (blobs_decode l) eqn:Hdec; [|discriminate Hadd].
    injection Hadd as <-. split; [|reflexivity].
    intros l' Hl'. injection Hl' as <-. exact Hdec.
  - injection Hadd as <-. split; [discriminate|reflexivity].
Qed.

Lemma add_enters (block : Block) (c c' : Chain.t) (l : list bytes) (j : nat)
    (blob msg_blob : bytes) :
  Chain.add block c = (c', Ok tt) ->
  body block = Some l -> l !! j = Some blob ->
  blob_message_parse blob = Some msg_blob ->
  (Z.of_nat (length (Chain.blocks c)), Z.of_nat j)
    ∈ locations (py_hash msg_blob) (Chain.mined_blobs c').
Proof.
  intros Hadd Hbody Hl Hm.
  destruct (add_returns block c c' Hadd) as (_ & Hdec & ->).
  rewrite Hbody. cbn [Chain.mined_blobs].
  change (Z.of_nat j) with (0 + Z.of_nat j)%Z.
  apply (locations_index_blobs_enters _ _ l _ j blob msg_blob);
    [|exact Hl|exact Hm].
  specialize (Hdec l Hbody). rewrite <- (take_drop j l), blobs_decode_app in Hdec.
  apply andb_true_iff in Hdec as [Hdec _]. exact Hdec.
Qed.

Lemma add_keeps_locations (block : Block) (c : Chain.t) (k : Z) (x : Z * Z) :
  x ∈ locations k (Chain.mined_blobs c) ->
  x ∈ locations k (Chain.mined_blobs (fst (Chain.add block c))).
Proof.
  intros Hx. rewrite add_eq. destruct (Block.get_body block); [exact Hx|].
  cbv zeta.
  pose proof (add_mined_blobs_keeps (Z.of_nat (length (Chain.blocks c)))
                block c k x Hx) as Hkeep.
  destruct (Chain.__add_mined_blobs _ block c) as [c1 [[]|e]]; exact Hkeep.
Qed.

(** X1.  A call of [add] that returns has put the block at the end of the
    list and added its cost.  Every location the index held is still there;
    every blob of the block is now in the index under its hash, at the index
    the block has in the list and at its own place in the body; and every
    new location is at that index. *)
Theorem add_appends_and_indexes (block : Block) (c c' : Chain.t) :
  Chain.add block c = (c', Ok tt) ->
  Chain.blocks c' = Chain.blocks c ++ [block]
  /\ Chain.blocks c' !! length (Chain.blocks c) = Some block
  /\ Chain.cost c' = (Chain.cost c + Block.get_cost block)%Z
  /\ (forall k x, x ∈ locations k (Chain.mined_blobs c) ->
                  x ∈ locations k (Chain.mined_blobs c'))
  /\ (forall l j blob,
        body block = Some l -> l !! j = Some blob ->
        exists msg_blob,
          blob_message_parse blob = Some msg_blob
          /\ (Z.of_nat (length (Chain.blocks c)), Z.of_nat j)
               ∈ locations (py_hash msg_blob) (Chain.mined_blobs c'))
  /\ (forall k i j, (i, j) ∈ locations k (Chain.mined_blobs c') ->
        (i, j) ∈ locations k (Chain.mined_blobs c)
        \/ i = Z.of_nat (length (Chain.blocks c))).
Proof.
  intros Hadd. destruct (add_returns block c c' Hadd) as (_ & Hdec & Hc').
  split; [rewrite Hc'; reflexivity|].
  split; [rewrite Hc'; apply list_lookup_middle; reflexivity|].
  split; [rewrite Hc'; reflexivity|]. split; [|split].
  - intros k x Hx. pose proof (add_keeps_locations block c k x Hx) as Hk.
    rewrite Hadd in Hk. exact Hk.
  - intros l j blob Hbody Hl.
    destruct (blobs_decode_lookup l j blob (Hdec l Hbody) Hl) as [m Hm].
    exists m. split; [exact Hm|]. apply (add_enters block c c' l j blob m); auto.
  - intros k i j Hin. rewrite Hc' in Hin. cbn [Chain.mined_blobs] in Hin.
    destruct (body block); [|auto].
    apply locations_index_blobs in Hin as [Hin|[-> _]]; auto.
Qed.

(** X2.  [add] is not all or nothing.  When the body of the block holds a
    blob that does not parse, after blobs that do, [add] raises
    [DecodeError] with the list of blocks and the cost as before, and with
    the blobs before the bad one entered in the index, at an index of the
    list that holds no block. *)
Theorem add_decode_error_is_partial (block : Block) (c : Chain.t)
    (pre : list bytes) (bad : bytes) (post : list bytes) :
  body block = Some (pre ++ bad :: post) ->
  blobs_decode pre = true ->
  blob_message_parse bad = None ->
  Chain.add block c
  = (Chain.mk (Chain.blocks c) (Chain.cost c)
       (index_blobs (Z.of_nat (length (Chain.blocks c))) 0 pre
          (Chain.mined_blobs c)),
     Raise DecodeError)
  /\ Chain.blocks (fst (Chain.add block c)) !! length (Chain.blocks c) = None
  /\ forall j blob,
       pre !! j = Some blob ->
       exists msg_blob,
         blob_message_parse blob = Some msg_blob
         /\ (Z.of_nat (length (Chain.blocks c)), Z.of_nat j)
              ∈ locations (py_hash msg_blob)
                  (Chain.mined_blobs (fst (Chain.add block c))).
Proof.
  intros Hbody Hpre Hbad.
  assert (Hadd : Chain.add block c
    = (Chain.mk (Chain.blocks c) (Chain.cost c)
         (index_blobs (Z.of_nat (length (Chain.blocks c))) 0 pre
            (Chain.mined_blobs c)), Raise DecodeError)).
  { rewrite add_eq. unfold Block.get_body. rewrite Hbody. cbv zeta.
    rewrite add_mined_blobs_eq, Hbody. unfold decoded_or_raise.
    rewrite blobs_decode_app, Hpre, (index_blobs_stops _ _ _ _ _ _ Hpre Hbad).
    unfold blobs_decode at 1. cbn [forallb andb].
    rewrite bool_decide_eq_false_2; [reflexivity|].
    rewrite Hbad. intros [? ?]. discriminate. }
  rewrite Hadd. cbn [fst Chain.blocks Chain.mined_blobs].
  split; [reflexivity|]. split; [apply lookup_ge_None_2; lia|].
  intros j blob Hj.
  destruct (blobs_decode_lookup pre j blob Hpre Hj) as [m Hm].
  exists m. split; [exact Hm|].
  change (Z.of_nat j) with (0 + Z.of_nat j)%Z.
  apply (locations_index_blobs_enters _ _ pre _ j blob m); [|exact Hj|exact Hm].
  rewrite <- (take_drop j pre), blobs_decode_app in Hpre.
  apply andb_true_iff in Hpre as [Hpre _]. exact Hpre.
Qed.

End IndexUpdates.

(** ** What the index holds after calls of the mutators *)
Section IndexInvariants.
Context {collab : Collaborators}.

Lemma add_keeps_index_complete (block : Block) (c c' : Chain.t) :
  index_complete c -> Chain.add block c = (c', Ok tt) -> index_complete c'.
Proof.
  intros Hcomplete Hadd n b l j blob m Hn Hb Hbody Hl Hm.
  destruct (add_returns block c c' Hadd) as (_ & _ & Hc').
  assert (Hblocks : Chain.blocks c' = Chain.blocks c ++ [block])
    by (rewrite Hc'; reflexivity).
  rewrite Hblocks in Hb.
  destruct (decide (n < length (Chain.blocks c))) as [Hlt|Hge].
  - rewrite lookup_app_l in Hb by exact Hlt.
    pose proof (add_keeps_locations block c _ _
                  (Hcomplete n b l j blob m Hn Hb Hbody Hl Hm)) as Hk.
    rewrite Hadd in Hk. exact Hk.
  - rewrite lookup_app_r in Hb by lia.
    destruct (n - length (Chain.blocks c)) as [|n'] eqn:Hn'; [|destruct n'; discriminate Hb].
    injection Hb as <-.
    replace n with (length (Chain.blocks c)) by lia.
    apply (add_enters block c c' l j blob m); assumption.
Qed.

Lemma add_all_keeps (bs : list Block) (c0 c : Chain.t) :
  index_sound c0 -> index_complete c0 -> add_all bs c0 = Ok c ->
  Chain.blocks c = Chain.blocks c0 ++ bs /\ index_sound c /\ index_complete c.
Proof.
  revert c0. induction bs as [|b bs IH]; intros c0 Hsound Hcomplete Hall.
  - injection Hall as <-. rewrite app_nil_r. auto.
  - cbn in Hall. destruct (Chain.add b c0) as [c1 [[]|e]] eqn:Hadd;
      [|discriminate Hall].
    destruct (IH c1) as (Hblocks & Hs & Hc); [| |exact Hall|].
    + apply (add_keeps_index_sound b c0 c1 Hsound Hadd).
    + apply (add_keeps_index_complete b c0 c1 Hcomplete Hadd).
    + split; [|auto]. rewrite Hblocks.
      destruct (add_returns b c0 c1 Hadd) as (_ & _ & ->). cbn [Chain.blocks].
      rewrite <- app_assoc. reflexivity.
Qed.

Lemma init_index_complete : index_complete Chain.__init__.
Proof.
  intros n b l j blob m Hn Hb. cbn in Hb.
  destruct n as [|n]; [lia|]. destruct n; discriminate Hb.
Qed.

(** X3.  On a chain grown by calls of [add] alone, each of which returned,
    the list is the genesis block followed by the blocks added, in order,
    and the index is exact for them: every location names a block at that
    index whose blob at that place hashes to the key, and every blob of
    every block after the first is in the index at its place. *)
Theorem adds_keep_index_exact (bs : list Block) (c : Chain.t) :
  add_all bs Chain.__init__ = Ok c ->
  Chain.blocks c = Block.genesis :: bs
  /\ index_sound c
  /\ index_complete c.
Proof.
  intros Hall.
  apply (add_all_keeps bs Chain.__init__ c init_index_sound init_index_complete Hall).
Qed.

(** The blocks of the list are never fewer after a call. *)
Lemma after_length (call : Chain.call) (c : Chain.t) :
  length (Chain.blocks c) <= length (Chain.blocks (Chain.after call c)).
Proof.
  destruct call as [b|i b|i b]; cbn [Chain.after].
  - rewrite add_eq. destruct (Block.get_body b); [reflexivity|]. cbv zeta.
    destruct (add_mined_blobs_frame (Z.of_nat (length (Chain.blocks c))) b c)
      as [Hb _].
    destruct (Chain.__add_mined_blobs _ b c) as [c1 [[]|e]]; cbn [fst] in *;
      cbn [Chain.blocks]; rewrite ?length_app, Hb; lia.
  - rewrite insert_eq. destruct (add_mined_blobs_frame i b c) as [Hb _].
    destruct (Chain.__add_mined_blobs _ b c) as [c1 [[]|e]]; cbn [fst] in *;
      cbn [Chain.blocks]; rewrite ?py_list_insert_length, Hb; lia.
  - destruct (decide (replaceable i c)) as [Hin|Hout].
    + destruct (replace_in_range i b c Hin) as (cur & _ & ->).
      destruct (Block.ne cur b); [reflexivity|]. cbv zeta.
      match goal with
      | |- context [Chain.__add_mined_blobs ?i ?b ?s] =>
          destruct (add_mined_blobs_frame i b s) as [Hb _];
          destruct (Chain.__add_mined_blobs i b s) as [c1 [[]|e]]
      end; cbn [fst] in *; rewrite Hb; cbn [Chain.set_blocks Chain.blocks];
        rewrite length_insert; reflexivity.
    + rewrite (replace_out_of_range i b c Hout). reflexivity.
Qed.

Lemma after_all_length (calls : list Chain.call) (c : Chain.t) :
  length (Chain.blocks c) <= length (Chain.blocks (Chain.after_all calls c)).
Proof.
  revert c. induction calls as [|call calls IH]; intros c; [reflexivity|].
  cbn. etransitivity; [apply (after_length call)|apply IH].
Qed.

(** X4.  A chain made by [__init__] never loses a block, whatever calls of
    [add], [insert] and [replace] follow and whether they return or raise.
    So it always holds a block, and [is_valid], [is_complete] and [next]
    never raise [IndexError] on it: the first two return a boolean. *)
Theorem reachable_chain_answers (calls more : list Chain.call) :
  1 <= length (Chain.blocks (Chain.after_all calls Chain.__init__))
  /\ length (Chain.blocks (Chain.after_all calls Chain.__init__))
     <= length (Chain.blocks
                  (Chain.after_all more (Chain.after_all calls Chain.__init__)))
  /\ (exists valid, Chain.is_valid (Chain.after_all calls Chain.__init__) = Ok valid)
  /\ (exists complete,
        Chain.is_complete (Chain.after_all calls Chain.__init__) = Ok complete)
  /\ (forall fuel difficulty blobs,
        exists found,
          snd (Chain.next fuel difficulty blobs
                 (Chain.after_all calls Chain.__init__)) = Ok found).
Proof.
  pose proof (after_all_length calls Chain.__init__) as Hlen.
  change (length (Chain.blocks Chain.__init__)) with 1 in Hlen.
  set (c := Chain.after_all calls Chain.__init__) in *.
  assert (Hne : Chain.blocks c <> []).
  { intros Hnil. rewrite Hnil in Hlen. cbn in Hlen. lia. }
  split; [exact Hlen|]. split; [apply after_all_length|].
  destruct (is_valid_total c Hne) as [valid Hvalid].
  split; [eauto|]. split.
  - rewrite is_complete_eq, Hvalid. eauto.
  - intros fuel difficulty blobs. rewrite next_eq. cbn [snd].
    destruct (last (Chain.blocks c)) eqn:Hlast; [eauto|].
    exfalso. apply Hne. apply last_None. exact Hlast.
Qed.

Lemma after_keeps_locations (call : Chain.call) (c : Chain.t) (k : Z) (x : Z * Z) :
  x ∈ locations k (Chain.mined_blobs c) ->
  x ∈ locations k (Chain.mined_blobs (Chain.after call c)).
Proof.
  intros Hx. destruct call as [b|i b|i b]; cbn [Chain.after].
  - apply add_keeps_locations, Hx.
  - rewrite insert_eq. pose proof (add_mined_blobs_keeps i b c k x Hx) as Hk.
    destruct (Chain.__add_mined_blobs i b c) as [c1 [[]|e]]; exact Hk.
  - destruct (decide (replaceable i c)) as [Hin|Hout].
    + destruct (replace_in_range i b c Hin) as (cur & _ & ->).
      destruct (Block.ne cur b); [exact Hx|]. cbv zeta.
      match goal with
      | |- context [Chain.__add_mined_blobs ?i ?b ?s] =>
          pose proof (add_mined_blobs_keeps i b s k x Hx) as Hk;
          destruct (Chain.__add_mined_blobs i b s) as [c1 [[]|e]]
      end; exact Hk.
    + rewrite (replace_out_of_range i b c Hout). exact Hx.
Qed.

(** X5.  No call of [add], [insert] or [replace] ever takes a location out
    of the index, whether it returns or raises: what is under a key stays
    under it, also when [replace] gives the block another body or none and
    when [insert] moves the blocks behind the place it inserts at. *)
Theorem calls_never_remove_locations (calls : list Chain.call) (c : Chain.t)
    (k : Z) (x : Z * Z) :
  x ∈ locations k (Chain.mined_blobs c) ->
  x ∈ locations k (Chain.mined_blobs (Chain.after_all calls c)).
Proof.
  revert c. induction calls as [|call calls IH]; intros c Hx; [exact Hx|].
  cbn. apply IH, after_keeps_locations, Hx.
Qed.

Lemma add_mined_blobs_clear (idx : Z) (block : Block) (c : Chain.t) :
  (1 <= idx)%Z -> index_clear_of_genesis c ->
  index_clear_of_genesis (fst (Chain.__add_mined_blobs idx block c)).
Proof.
  intros Hidx Hclear k i j Hin. rewrite add_mined_blobs_eq in Hin.
  destruct (body block); [|apply (Hclear k i j Hin)].
  cbn [fst Chain.mined_blobs] in Hin.
  apply locations_index_blobs in Hin as [Hin|[-> _]];
    [apply (Hclear k i j Hin)|exact Hidx].
Qed.

Lemma after_clear (call : Chain.call) (c : Chain.t) :
  above_genesis call -> 1 <= length (Chain.blocks c) ->
  index_clear_of_genesis c -> index_clear_of_genesis (Chain.after call c).
Proof.
  intros Habove Hlen Hclear. destruct call as [b|i b|i b]; cbn [Chain.after].
  - rewrite add_eq. destruct (Block.get_body b); [exact Hclear|]. cbv zeta.
    pose proof (add_mined_blobs_clear (Z.of_nat (length (Chain.blocks c))) b c
                  ltac:(lia) Hclear) as Hk.
    destruct (Chain.__add_mined_blobs _ b c) as [c1 [[]|e]]; exact Hk.
  - rewrite insert_eq.
    pose proof (add_mined_blobs_clear i b c Habove Hclear) as Hk.
    destruct (Chain.__add_mined_blobs i b c) as [c1 [[]|e]]; exact Hk.
  - destruct (decide (replaceable i c)) as [Hin|Hout].
    + destruct (replace_in_range i b c Hin) as (cur & _ & ->).
      destruct (Block.ne cur b); [exact Hclear|]. cbv zeta.
      match goal with
      | |- context [Chain.__add_mined_blobs ?i ?b ?s] =>
          pose proof (add_mined_blobs_clear i b s) as Hk;
          destruct (Chain.__add_mined_blobs i b s) as [c1 [[]|e]]
      end; apply Hk; solve [destruct Hin; lia | exact Hclear].
    + rewrite (replace_out_of_range i b c Hout). exact Hclear.
Qed.

Lemma after_all_clear (calls : list Chain.call) (c : Chain.t) :
  Forall above_genesis calls -> 1 <= length (Chain.blocks c) ->
  index_clear_of_genesis c -> index_clear_of_genesis (Chain.after_all calls c).
Proof.
  intros Hcalls. revert c. induction Hcalls as [|call calls Hcall _ IH];
    intros c Hlen Hclear; [exact Hclear|].
  cbn. apply IH.
  - etransitivity; [exact Hlen|apply (after_length call)].
  - apply after_clear; assumption.
Qed.

(** X6.  The blobs of the block at index 0 are never in the index:
    [__init__] does not enter the genesis block, [add] enters a block at the
    length of the list, which is 1 or more, and [replace] refuses the index
    0.  Only an [insert] at 0 or below could name it. *)
Theorem index_never_names_genesis (calls : list Chain.call) :
  Forall above_genesis calls ->
  index_clear_of_genesis (Chain.after_all calls Chain.__init__).
Proof.
  intros Hcalls. apply after_all_clear; [exact Hcalls|cbn; lia|].
  intros k i j Hin. cbn in Hin. inversion Hin.
Qed.

(** X7.  The same blob in two blocks gives two locations under one key:
    when two calls of [add] in a row return, a blob of the first block and a
    blob of the second with the same hash are both in the index under that
    hash, at the indices of their blocks, one after the other. *)
Theorem duplicate_blob_two_locations (b1 b2 : Block) (c c1 c2 : Chain.t)
    (l1 l2 : list bytes) (j1 j2 : nat) (blob1 blob2 m1 m2 : bytes) :
  Chain.add b1 c = (c1, Ok tt) ->
  Chain.add b2 c1 = (c2, Ok tt) ->
  body b1 = Some l1 -> l1 !! j1 = Some blob1 ->
  body b2 = Some l2 -> l2 !! j2 = Some blob2 ->
  blob_message_parse blob1 = Some m1 ->
  blob_message_parse blob2 = Some m2 ->
  py_hash m1 = py_hash m2 ->
  (Z.of_nat (length (Chain.blocks c)), Z.of_nat j1)
    ∈ locations (py_hash m1) (Chain.mined_blobs c2)
  /\ (Z.of_nat (length (Chain.blocks c)) + 1, Z.of_nat j2)%Z
    ∈ locations (py_hash m1) (Chain.mined_blobs c2).
Proof.
  intros Hadd1 Hadd2 Hb1 Hl1 Hb2 Hl2 Hm1 Hm2 Hhash. split.
  - pose proof (add_keeps_locations b2 c1 _ _
                  (add_enters b1 c c1 l1 j1 blob1 m1 Hadd1 Hb1 Hl1 Hm1)) as Hk.
    rewrite Hadd2 in Hk. exact Hk.
  - pose proof (add_enters b2 c1 c2 l2 j2 blob2 m2 Hadd2 Hb2 Hl2 Hm2) as Hk.
    destruct (add_returns b1 c c1 Hadd1) as (_ & _ & Hc1).
    rewrite Hc1 in Hk at 1. cbn [Chain.blocks] in Hk.
    rewrite length_app in Hk. cbn [length] in Hk.
    rewrite Hhash.
    replace (Z.of_nat (length (Chain.blocks c)) + 1)%Z
      with (Z.of_nat (length (Chain.blocks c) + 1)) by lia.
    exact Hk.
Qed.

End IndexInvariants.

(** ** [insert] *)
Section Insert.
Context {collab : Collaborators}.

Lemma insert_position_le (idx : Z) (len : nat) : insert_position idx len <= len.
Proof.
  unfold insert_position. destruct (Z.ltb_spec idx 0); lia.
Qed.

Lemma py_list_insert_position {A} (idx : Z) (x : A) (l : list A) :
  py_list_insert idx x l
  = take (insert_position idx (length l)) l
    ++ x :: drop (insert_position idx (length l)) l.
Proof. reflexivity. Qed.

(** What a call of [insert] that returns has done. *)
Lemma insert_returns (idx : Z) (block : Block) (c c' : Chain.t) :
  Chain.insert idx block c = (c', Ok tt) ->
  (forall l, body block = Some l -> blobs_decode l = true)
  /\ c' = Chain.mk (py_list_insert idx block (Chain.blocks c))
            (Chain.cost c + Block.get_cost block)
            (match body block with
             | Some l => index_blobs idx 0 l (Chain.mined_blobs c)
             | None => Chain.mined_blobs c
             end).
Proof.
  intros Hins. rewrite insert_eq, add_mined_blobs_eq in Hins.
  destruct (body block) as [l|].
  - unfold decoded_or_raise in Hins.
    destruct (blobs_decode l) eqn:Hdec; [|discriminate Hins].
    injection Hins as <-. split; [|reflexivity].
    intros l' Hl'. injection Hl' as <-. exact Hdec.
  - injection Hins as <-. split; [discriminate|reflexivity].
Qed.

(** X8.  A call of [insert] that returns has put the block where
    [list.insert] puts it and added its cost: at [idx] when that is an index
    of the list or its length, at the end when [idx] is beyond it, counted
    from the end when [idx] is negative, and at the front when it is more
    negative than the list is long.  Taking the block out again gives the
    list as it was.  The blobs of the block are entered under [idx] as it
    was given, which is the place of the block only in the first case. *)
Theorem insert_places_block (idx : Z) (block : Block) (c c' : Chain.t) :
  Chain.insert idx block c = (c', Ok tt) ->
  let len := length (Chain.blocks c) in
  let p := insert_position idx len in
  p <= len
  /\ Chain.blocks c' !! p = Some block
  /\ delete p (Chain.blocks c') = Chain.blocks c
  /\ Chain.cost c' = (Chain.cost c + Block.get_cost block)%Z
  /\ ((0 <= idx <= Z.of_nat len)%Z -> p = Z.to_nat idx)
  /\ ((Z.of_nat len < idx)%Z -> p = len)
  /\ ((- Z.of_nat len <= idx < 0)%Z -> p = Z.to_nat (Z.of_nat len + idx))
  /\ ((idx < - Z.of_nat len)%Z -> p = 0)
  /\ (forall l j blob,
        body block = Some l -> l !! j = Some blob ->
        exists msg_blob,
          blob_message_parse blob = Some msg_blob
          /\ (idx, Z.of_nat j) ∈ locations (py_hash msg_blob) (Chain.mined_blobs c')).
Proof.
  intros Hins len p.
  destruct (insert_returns idx block c c' Hins) as (Hdec & Hc').
  pose proof (insert_position_le idx len) as Hp. fold p in Hp.
  assert (Hblocks : Chain.blocks c'
            = take p (Chain.blocks c) ++ block :: drop p (Chain.blocks c)).
  { rewrite Hc'. apply py_list_insert_position. }
  assert (Htake : length (take p (Chain.blocks c)) = p)
    by (apply length_take_le; exact Hp).
  split; [exact Hp|]. split; [|split; [|split]].
  - rewrite Hblocks. apply list_lookup_middle. symmetry. exact Htake.
  - rewrite Hblocks. rewrite <- Htake at 1. rewrite delete_middle.
    apply take_drop.
  - rewrite Hc'. reflexivity.
  - assert (Hpos : (0 <= idx -> p = Z.to_nat (Z.min idx (Z.of_nat len)))%Z
                    /\ (idx < 0 -> p = Z.to_nat (Z.max 0 (idx + Z.of_nat len)))%Z).
    { unfold p, insert_position.
      destruct (Z.ltb_spec idx 0); split; intros; lia || reflexivity. }
    destruct Hpos as [Hnonneg Hneg].
    split; [intros Hidx; rewrite Hnonneg by lia; lia|].
    split; [intros Hidx; rewrite Hnonneg by lia; lia|].
    split; [intros Hidx; rewrite Hneg by lia; lia|].
    split; [intros Hidx; rewrite Hneg by lia; lia|].
    intros l j blob Hbody Hl.
    destruct (blobs_decode_lookup l j blob (Hdec l Hbody) Hl) as [m Hm].
    exists m. split; [exact Hm|]. rewrite Hc'. cbn [Chain.mined_blobs].
    rewrite Hbody. change (Z.of_nat j) with (0 + Z.of_nat j)%Z.
    apply (locations_index_blobs_enters _ _ l _ j blob m); [|exact Hl|exact Hm].
    specialize (Hdec l Hbody).
    rewrite <- (take_drop j l), blobs_decode_app in Hdec.
    apply andb_true_iff in Hdec as [Hdec _]. exact Hdec.
Qed.

(** X9.  [insert] at the length of the list is [add], for a block whose
    [get_body()] has [blobs]: the two calls leave the same chain and end
    the same way.  For a block whose [get_body()] is [None], [add] raises
    and leaves the chain alone, while [insert] at the length of the list
    appends it, adds its cost and leaves the index alone. *)
Theorem insert_at_tail_is_add (block : Block) (c : Chain.t) :
  (forall l0, Block.get_body block = PyBody l0 ->
     Chain.insert (Z.of_nat (length (Chain.blocks c))) block c = Chain.add block c)
  /\ (Block.get_body block = PyNone ->
      Chain.add block c = (c, Raise AttributeError)
      /\ Chain.insert (Z.of_nat (length (Chain.blocks c))) block c
         = (Chain.mk (Chain.blocks c ++ [block])
              (Chain.cost c + Block.get_cost block) (Chain.mined_blobs c), Ok tt)).
Proof.
  assert (Htail : py_list_insert (Z.of_nat (length (Chain.blocks c))) block
                    (Chain.blocks c) = Chain.blocks c ++ [block]).
  { rewrite py_list_insert_position. unfold insert_position.
    destruct (Z.ltb_spec (Z.of_nat (length (Chain.blocks c))) 0); [lia|].
    rewrite Z.min_id, Nat2Z.id, firstn_all, drop_all. reflexivity. }
  split.
  - intros l0 Hget. rewrite add_eq, insert_eq, Hget. cbv zeta.
    destruct (add_mined_blobs_frame (Z.of_nat (length (Chain.blocks c))) block c)
      as [Hb _].
    destruct (Chain.__add_mined_blobs _ block c) as [c1 [[]|e]]; [|reflexivity].
    cbn [fst] in Hb. rewrite Hb, Htail. reflexivity.
  - intros Hnone. split; [apply add_none, Hnone|].
    rewrite insert_eq, add_mined_blobs_eq. unfold Block.get_body in Hnone.
    destruct (body block); [discriminate Hnone|]. cbn [Chain.blocks].
    rewrite Htail. reflexivity.
Qed.

End Insert.

(** ** [replace] and what it leaves alone *)
Section ReplaceMore.
Context {collab : Collaborators}.

Lemma set_body_headers (i : nat) (cur : Block) (o : PyObj) (l : list Block) :
  l !! i = Some cur ->
  map header (<[i := Block.set_body cur o]> l) = map header l.
Proof.
  intros Hcur. change (map header) with (fmap (M := list) header).
  rewrite list_fmap_insert. apply list_insert_id.
  rewrite list_lookup_fmap, Hcur. reflexivity.
Qed.

(** The blocks after [replace]: those before, or those before with the
    block at [idx] given the body of the block passed in. *)
Lemma replace_blocks (idx : Z) (block : Block) (c : Chain.t) :
  Chain.blocks (fst (Chain.replace idx block c)) = Chain.blocks c
  \/ exists cur,
       Chain.blocks c !! Z.to_nat idx = Some cur
       /\ header cur = header block
       /\ Chain.blocks (fst (Chain.replace idx block c))
          = <[Z.to_nat idx := Block.set_body cur (Block.get_body block)]>
              (Chain.blocks c).
Proof.
  destruct (classic_accepts idx block c) as [Hacc|Hrej].
  - destruct (replace_accepted idx block c Hacc) as (cur & Hcur & Hhdr & Heq).
    cbv zeta in Heq. right. exists cur. split; [exact Hcur|].
    split; [exact Hhdr|]. rewrite Heq.
    destruct (body (Block.set_body cur (Block.get_body block))); reflexivity.
  - left. rewrite (replace_rejects idx block c Hrej). reflexivity.
Qed.

Lemma is_valid_headers (c c' : Chain.t) :
  map header (Chain.blocks c') = map header (Chain.blocks c) ->
  Chain.is_valid c' = Chain.is_valid c.
Proof.
  intros Hhdr. rewrite !is_valid_eq.
  destruct (Chain.blocks c') as [|a ra], (Chain.blocks c) as [|b rb];
    try discriminate Hhdr; [reflexivity|].
  cbn in Hhdr. injection Hhdr as Ha Hr.
  rewrite (linked_headers a b ra rb Ha Hr).
  unfold Block.is_valid. rewrite Ha. reflexivity.
Qed.

(** X10.  [replace] never changes what [is_valid] says: whether it returns
    true or false or raises, the chain it leaves has the same number of
    blocks with the same headers, in the same order, so [is_valid] gives the
    same answer before and after. *)
Theorem replace_keeps_validity (idx : Z) (block : Block) (c : Chain.t) :
  map header (Chain.blocks (fst (Chain.replace idx block c)))
  = map header (Chain.blocks c)
  /\ length (Chain.blocks (fst (Chain.replace idx block c)))
     = length (Chain.blocks c)
  /\ Chain.is_valid (fst (Chain.replace idx block c)) = Chain.is_valid c.
Proof.
  assert (Hhdr : map header (Chain.blocks (fst (Chain.replace idx block c)))
                 = map header (Chain.blocks c)).
  { destruct (replace_blocks idx block c) as [->|(cur & Hcur & _ & ->)];
      [reflexivity|apply set_body_headers, Hcur]. }
  split; [exact Hhdr|]. split.
  - rewrite <- (length_map header), Hhdr, length_map. reflexivity.
  - apply is_valid_headers, Hhdr.
Qed.

(** X11.  A call of [replace] that returns true, given a block whose
    [get_body()] is a body, takes [idx] out of [get_bodiless_indices] and
    puts no index in. *)
Theorem replace_fills_body (idx : Z) (block : Block) (c : Chain.t)
    (l : list bytes) :
  snd (Chain.replace idx block c) = Ok true ->
  Block.get_body block = PyBody l ->
  (idx ∉ Chain.get_bodiless_indices (fst (Chain.replace idx block c)))
  /\ forall i, i ∈ Chain.get_bodiless_indices (fst (Chain.replace idx block c)) ->
               i ∈ Chain.get_bodiless_indices c.
Proof.
  intros Hret Hget.
  destruct (classic_accepts idx block c) as [Hacc|Hrej].
  2: { rewrite (replace_rejects idx block c Hrej) in Hret. discriminate Hret. }
  destruct (replace_accepted idx block c Hacc) as (cur & Hcur & _ & Heq).
  cbv zeta in Heq. rewrite Hget in Heq. cbn [Block.set_body body] in Heq.
  assert (Hblocks : Chain.blocks (fst (Chain.replace idx block c))
            = <[Z.to_nat idx := mkBlock (header cur) (Some l)]> (Chain.blocks c))
    by (rewrite Heq; reflexivity).
  assert (Hlt : Z.to_nat idx < length (Chain.blocks c))
    by apply (lookup_lt_Some _ _ _ Hcur).
  unfold Chain.get_bodiless_indices. rewrite Hblocks.
  destruct Hacc as [[Hlo _] _]. split.
  - rewrite bodiless_from_elem. intros (n & b & Hn & Hb & Hno).
    assert (n = Z.to_nat idx) as -> by lia.
    rewrite list_lookup_insert_eq in Hb by exact Hlt.
    injection Hb as <-. discriminate Hno.
  - intros i. rewrite !bodiless_from_elem. intros (n & b & Hn & Hb & Hno).
    exists n, b. split; [exact Hn|]. split; [|exact Hno].
    destruct (decide (n = Z.to_nat idx)) as [->|Hne].
    + rewrite list_lookup_insert_eq in Hb by exact Hlt.
      injection Hb as <-. discriminate Hno.
    + rewrite list_lookup_insert_ne in Hb by congruence. exact Hb.
Qed.

Lemma lookup_index_blobs (block_idx k0 : Z) (l : list bytes)
    (d : gmap Z (gset (Z * Z))) (k : Z) :
  index_blobs block_idx k0 l d !! k
  = match entered block_idx k0 l k with
    | None => d !! k
    | Some s => Some (default ∅ (d !! k) ∪ s)
    end.
Proof.
  revert k0 d. induction l as [|blob l IH]; intros k0 d;
    cbn [index_blobs entered]; [reflexivity|].
  destruct (blob_message_parse blob) as [m|]; [|reflexivity].
  rewrite IH. cbv zeta. unfold defaultdict_add.
  destruct (decide (py_hash m = k)) as [->|Hne].
  - rewrite lookup_insert_eq.
    destruct (entered block_idx (k0 + 1) l k) as [s|]; cbn; f_equal.
    + symmetry. apply (assoc_L (∪)).
    + rewrite (right_id_L ∅ (∪)). reflexivity.
  - rewrite lookup_insert_ne by exact Hne. reflexivity.
Qed.

Lemma index_blobs_twice (block_idx k0 : Z) (l : list bytes)
    (d : gmap Z (gset (Z * Z))) :
  index_blobs block_idx k0 l (index_blobs block_idx k0 l d)
  = index_blobs block_idx k0 l d.
Proof.
  apply map_eq. intros k. rewrite (lookup_index_blobs _ _ _ (index_blobs _ _ _ _)).
  rewrite lookup_index_blobs.
  destruct (entered block_idx k0 l k) as [s|]; [|reflexivity].
  cbn. f_equal. rewrite <- (assoc_L (∪)), (idemp_L (∪)). reflexivity.
Qed.

(** X12.  [replace] is idempotent: the same call made again, on the chain
    the first call left, leaves that chain as it is and ends as the first
    did, with the same value returned or the same exception raised. *)
Theorem replace_idempotent (idx : Z) (block : Block) (c : Chain.t) :
  Chain.replace idx block (fst (Chain.replace idx block c))
  = Chain.replace idx block c.
Proof.
  destruct (classic_accepts idx block c) as [Hacc|Hrej].
  2: { rewrite (replace_rejects idx block c Hrej). cbn [fst].
       apply (replace_rejects idx block c Hrej). }
  destruct (replace_accepted idx block c Hacc) as (cur & Hcur & Hhdr & Heq).
  cbv zeta in Heq.
  set (cur' := Block.set_body cur (Block.get_body block)) in *.
  assert (Hlt : Z.to_nat idx < length (Chain.blocks c))
    by apply (lookup_lt_Some _ _ _ Hcur).
  assert (Hblocks : Chain.blocks (fst (Chain.replace idx block c))
                    = <[Z.to_nat idx := cur']> (Chain.blocks c)).
  { rewrite Heq. destruct (body cur'); reflexivity. }
  assert (Hacc' : replace_accepts idx block (fst (Chain.replace idx block c))).
  { destruct Hacc as [Hrange _]. split.
    - unfold replaceable in *. rewrite Hblocks, length_insert. exact Hrange.
    - exists cur'. split; [|exact Hhdr].
      rewrite Hblocks. apply list_lookup_insert_eq, Hlt. }
  destruct (replace_accepted idx block _ Hacc') as (cur1 & Hcur1 & _ & Heq1).
  cbv zeta in Heq1.
  assert (cur1 = cur') as ->.
  { rewrite Hblocks, list_lookup_insert_eq in Hcur1 by exact Hlt. congruence. }
  change (Block.set_body cur' (Block.get_body block)) with cur' in Heq1.
  rewrite Heq1, Hblocks, list_insert_insert_eq. rewrite Heq.
  destruct (body cur') as [l|]; cbn [fst Chain.cost Chain.mined_blobs].
  - rewrite index_blobs_twice. reflexivity.
  - reflexivity.
Qed.

End ReplaceMore.

(** ** Growing a valid chain *)
Section Growing.
Context {collab : Collaborators}.

Lemma linked_snoc (prev : Block) (rest : list Block) (b : Block) :
  linked prev (rest ++ [b])
  = linked prev rest && link_ok (default prev (last rest)) b.
Proof.
  revert prev. induction rest as [|x rest IH]; intros prev.
  - cbn. rewrite andb_true_r. reflexivity.
  - cbn [app linked]. rewrite IH, <- andb_assoc. f_equal. f_equal.
    destruct rest as [|y rest]; [reflexivity|].
    rewrite last_cons_cons. destruct (last (y :: rest)) eqn:Hlast; [reflexivity|].
    apply last_None in Hlast. discriminate Hlast.
Qed.

Lemma is_valid_snoc (c c' : Chain.t) (block tail : Block) (valid : bool) :
  Chain.blocks c' = Chain.blocks c ++ [block] ->
  last (Chain.blocks c) = Some tail ->
  Chain.is_valid c = Ok valid ->
  Chain.is_valid c' = Ok (valid && link_ok tail block).
Proof.
  intros Hblocks Hlast Hvalid. rewrite is_valid_eq in *. rewrite Hblocks.
  destruct (Chain.blocks c) as [|first rest]; [discriminate Hlast|].
  injection Hvalid as <-. cbn [app]. rewrite linked_snoc, andb_assoc.
  do 3 f_equal. destruct rest as [|y rest].
  - cbn in Hlast. injection Hlast as ->. reflexivity.
  - rewrite last_cons_cons in Hlast. rewrite Hlast. reflexivity.
Qed.

(** X13.  What [is_valid] says after a call of [add] that returned, on a
    chain it gave an answer for: the answer it gave before, and the new
    block names the hash of the block that was last and passes its own
    check.  So a valid chain stays valid exactly when the block added
    links to its tail and is valid, and an invalid one stays invalid. *)
Theorem add_then_is_valid (block : Block) (c c' : Chain.t) (tail : Block)
    (valid : bool) :
  Chain.add block c = (c', Ok tt) ->
  last (Chain.blocks c) = Some tail ->
  Chain.is_valid c = Ok valid ->
  Chain.is_valid c'
  = Ok (valid && (bool_decide (Block.prev_hash block = Block.hash tail)
                  && Block.is_valid block)).
Proof.
  intros Hadd Hlast Hvalid.
  destruct (add_returns block c c' Hadd) as (_ & _ & Hc').
  apply (is_valid_snoc c c' block tail valid); [|exact Hlast|exact Hvalid].
  rewrite Hc'. reflexivity.
Qed.

(** X14.  The block [next] returns extends the chain it was made for: on a
    valid chain, when the blobs given all parse, [add] of that block
    returns, puts it at the end, and the chain is still valid; it is still
    complete if it was. *)
Theorem mined_block_extends_chain (fuel : nat) (difficulty : Z)
    (blobs : list bytes) (c : Chain.t) (b : Block) :
  snd (Chain.next fuel difficulty blobs c) = Ok (Some b) ->
  blobs_decode blobs = true ->
  Chain.is_valid c = Ok true ->
  exists c',
    Chain.add b c = (c', Ok tt)
    /\ Chain.blocks c' = Chain.blocks c ++ [b]
    /\ Chain.is_valid c' = Ok true
    /\ (Chain.is_complete c = Ok true -> Chain.is_complete c' = Ok true).
Proof.
  intros Hnext Hdec Hvalid. rewrite next_eq in Hnext. cbn [snd] in Hnext.
  destruct (last (Chain.blocks c)) as [tail|] eqn:Hlast; [|discriminate Hnext].
  injection Hnext as Hbuild. unfold BlockBuilder.build in Hbuild. cbn in Hbuild.
  destruct (BlockBuilder.mine fuel (Block.hash tail) difficulty 0) as [n|] eqn:Hmine;
    [|discriminate Hbuild].
  injection Hbuild as <-. apply mine_sound in Hmine.
  set (b := mkBlock (mkHeader (Block.hash tail) n difficulty) (Some blobs)).
  set (c' := Chain.mk (Chain.blocks c ++ [b]) (Chain.cost c + Block.get_cost b)
               (index_blobs (Z.of_nat (length (Chain.blocks c))) 0 blobs
                  (Chain.mined_blobs c))).
  assert (Hv' : Chain.is_valid c' = Ok true).
  { rewrite (is_valid_snoc c c' b tail true eq_refl Hlast Hvalid).
    unfold link_ok, Block.prev_hash, Block.is_valid. cbn [b header h_prev_hash].
    rewrite bool_decide_eq_true_2 by reflexivity. rewrite Hmine. reflexivity. }
  exists c'. split; [apply (add_with_body b c blobs eq_refl Hdec)|].
  split; [reflexivity|]. split; [exact Hv'|].
  rewrite !is_complete_eq, Hvalid, Hv'. cbn [andb c' Chain.blocks].
  intros Hc. injection Hc as Hc. f_equal.
  apply all_have_body_true. intros b' Hin.
  apply elem_of_app in Hin as [Hin|Hin].
  - apply (proj1 (all_have_body_true _) Hc b' Hin).
  - apply list_elem_of_singleton in Hin as ->. reflexivity.
Qed.

End Growing.

(** ** [get_bodiless_indices], in full *)
Section Bodiless.
Context {collab : Collaborators}.

Lemma bodiless_from_sorted (k : Z) (bs : list Block) :
  StronglySorted Z.lt (Chain.bodiless_from k bs).
Proof.
  revert k. induction bs as [|b bs IH]; intros k; cbn [Chain.bodiless_from];
    [constructor|].
  destruct (Block.has_body b); cbn [negb]; [apply IH|].
  constructor; [apply IH|].
  apply Forall_forall. intros i Hi.
  apply bodiless_from_elem in Hi as (n & b' & -> & _). lia.
Qed.

(** X15.  [get_bodiless_indices] returns the indices of the blocks without
    a body, all of them and no other, in increasing order. *)
Theorem get_bodiless_indices_exact (c : Chain.t) :
  (forall i, i ∈ Chain.get_bodiless_indices c <->
     exists n b, i = Z.of_nat n /\ Chain.blocks c !! n = Some b
                 /\ Block.has_body b = false)
  /\ StronglySorted Z.lt (Chain.get_bodiless_indices c).
Proof.
  unfold Chain.get_bodiless_indices. split; [|apply bodiless_from_sorted].
  intros i. rewrite bodiless_from_elem. split;
    intros (n & b & Hn & Hrest); exists n, b; (split; [lia|exact Hrest]).
Qed.

End Bodiless.

(** ** The chain [decode] returns *)
Section DecodeMore.
Context {collab : Collaborators}.

Lemma add_all_cost_invariant (bs : list Block) (c0 c : Chain.t) :
  cost_invariant c0 -> add_all bs c0 = Ok c -> cost_invariant c.
Proof.
  revert c0. induction bs as [|b bs IH]; intros c0 Hinv Hall.
  - injection Hall as <-. exact Hinv.
  - cbn in Hall. pose proof (add_cost_invariant b c0 Hinv) as Hstep.
    destruct (Chain.add b c0) as [c1 [[]|e]]; [|discriminate Hall].
    apply (IH c1 Hstep Hall).
Qed.

(** X16.  A chain that [decode] returns is the genesis block followed by
    the blocks decoded from the records after the first, in order, so it
    has as many blocks as the message has records, and one if it has none.
    Its cost is the sum of the costs of its blocks and its index is exact
    for the blocks after the first.  A message of no record, or of one,
    whatever it holds, decodes to the chain of [__init__]. *)
Theorem decode_result_consistent (data : bytes) (has_bodies : bool) :
  (forall c,
     Chain.decode data has_bodies = Ok c ->
     exists records bs,
       chain_parse data = Some records
       /\ mapM (fun r => block_decode r has_bodies) (drop 1 records) = Some bs
       /\ Chain.blocks c = Block.genesis :: bs
       /\ length (Chain.blocks c) = Nat.max 1 (length records)
       /\ Chain.cost c = sum_costs (Chain.blocks c)
       /\ index_sound c
       /\ index_complete c)
  /\ (forall records,
      chain_parse data = Some records -> length records <= 1 ->
      Chain.decode data has_bodies = Ok Chain.__init__).
Proof.
  unfold Chain.decode. split.
  - intros c Hdec. destruct (chain_parse data) as [records|]; [|discriminate Hdec].
    apply decode_loop_ok in Hdec as (bs & Hbs & Hall).
    exists records, bs. split; [reflexivity|]. split; [exact Hbs|].
    destruct (add_all_keeps bs Chain.__init__ c init_index_sound
                init_index_complete Hall) as (Hblocks & Hsound & Hcomplete).
    split; [exact Hblocks|]. split.
    + rewrite Hblocks. cbn [Chain.__init__ Chain.blocks app length].
      rewrite <- (length_mapM _ _ _ Hbs), length_drop. lia.
    + split; [|auto].
      apply (add_all_cost_invariant bs Chain.__init__ c init_cost_invariant Hall).
  - intros records -> Hlen.
    destruct records as [|r [|r' records]]; [reflexivity|reflexivity|].
    cbn in Hlen. lia.
Qed.

End DecodeMore.

(** ** More on [replace] *)
Section ReplaceOutcomes.
Context {collab : Collaborators}.

(** X17.  [replace] is not all or nothing either.  When it accepts a block
    whose body holds a blob that does not parse, after blobs that do, it
    raises [DecodeError] with the body already set at [idx] and the blobs
    before the bad one entered in the index; the number of blocks and the
    cost are as before.  Nothing is said of the blocks at other places. *)
Theorem replace_decode_error_is_partial (idx : Z) (block : Block) (c : Chain.t)
    (pre : list bytes) (bad : bytes) (post : list bytes) :
  replace_accepts idx block c ->
  Block.get_body block = PyBody (pre ++ bad :: post) ->
  blobs_decode pre = true ->
  blob_message_parse bad = None ->
  exists cur,
    Chain.blocks c !! Z.to_nat idx = Some cur
    /\ snd (Chain.replace idx block c) = Raise DecodeError
    /\ Chain.blocks (fst (Chain.replace idx block c)) !! Z.to_nat idx
       = Some (mkBlock (header cur) (Some (pre ++ bad :: post)))
    /\ length (Chain.blocks (fst (Chain.replace idx block c)))
       = length (Chain.blocks c)
    /\ Chain.cost (fst (Chain.replace idx block c)) = Chain.cost c
    /\ Chain.mined_blobs (fst (Chain.replace idx block c))
       = index_blobs idx 0 pre (Chain.mined_blobs c).
Proof.
  intros Hacc Hget Hpre Hbad.
  destruct (replace_accepted idx block c Hacc) as (cur & Hcur & _ & Heq).
  cbv zeta in Heq. rewrite Hget in Heq. cbn [Block.set_body body] in Heq.
  rewrite blobs_decode_app, Hpre in Heq.
  rewrite (index_blobs_stops _ _ _ _ _ _ Hpre Hbad) in Heq.
  unfold blobs_decode at 1 in Heq. cbn [forallb andb] in Heq.
  rewrite bool_decide_eq_false_2 in Heq
    by (rewrite Hbad; intros [? ?]; discriminate).
  cbn [andb] in Heq.
  exists cur. split; [exact Hcur|]. rewrite Heq.
  cbn [fst snd Chain.blocks Chain.cost Chain.mined_blobs].
  split; [reflexivity|].
  split; [apply list_lookup_insert_eq, (lookup_lt_Some _ _ _ Hcur)|].
  split; [apply length_insert|]. split; reflexivity.
Qed.

(** X18.  Filling the last missing body completes a valid chain: when
    [is_valid] returns true, [idx] is the only index in
    [get_bodiless_indices], and [replace(idx, b)] returns true for a [b]
    whose [get_body()] is a body, [is_complete] returns true afterwards. *)
Theorem last_body_completes_chain (idx : Z) (block : Block) (c : Chain.t)
    (l : list bytes) :
  Chain.is_valid c = Ok true ->
  (forall i, i ∈ Chain.get_bodiless_indices c -> i = idx) ->
  snd (Chain.replace idx block c) = Ok true ->
  Block.get_body block = PyBody l ->
  Chain.get_bodiless_indices (fst (Chain.replace idx block c)) = []
  /\ Chain.is_complete (fst (Chain.replace idx block c)) = Ok true.
Proof.
  intros Hvalid Honly Hret Hget.
  destruct (classic_accepts idx block c) as [Hacc|Hrej].
  2: { rewrite (replace_rejects idx block c Hrej) in Hret. discriminate Hret. }
  destruct (replace_accepted idx block c Hacc) as (cur & Hcur & _ & Heq).
  cbv zeta in Heq. rewrite Hget in Heq. cbn [Block.set_body body] in Heq.
  assert (Hblocks : Chain.blocks (fst (Chain.replace idx block c))
            = <[Z.to_nat idx := mkBlock (header cur) (Some l)]> (Chain.blocks c))
    by (rewrite Heq; reflexivity).
  assert (Hlt : Z.to_nat idx < length (Chain.blocks c))
    by apply (lookup_lt_Some _ _ _ Hcur).
  assert (Hall : Chain.all_have_body
                   (Chain.blocks (fst (Chain.replace idx block c))) = true).
  { apply all_have_body_true. intros b Hb. rewrite Hblocks in Hb.
    apply list_elem_of_lookup in Hb as [n Hn].
    destruct (decide (n = Z.to_nat idx)) as [->|Hne].
    - rewrite list_lookup_insert_eq in Hn by exact Hlt.
      injection Hn as <-. reflexivity.
    - rewrite list_lookup_insert_ne in Hn by congruence.
      destruct (Block.has_body b) eqn:Hbody; [reflexivity|].
      exfalso. apply Hne. destruct Hacc as [[Hlo _] _].
      assert (Hin : Z.of_nat n ∈ Chain.get_bodiless_indices c).
      { apply bodiless_from_elem. exists n, b. split; [lia|auto]. }
      apply Honly in Hin. lia. }
  split.
  - apply bodiless_from_nil. exact Hall.
  - rewrite is_complete_eq.
    assert (Hhdr : map header (Chain.blocks (fst (Chain.replace idx block c)))
                   = map header (Chain.blocks c))
      by (rewrite Hblocks; apply (set_body_headers _ cur (PyBody l)), Hcur).
    rewrite (is_valid_headers c _ Hhdr), Hvalid, Hall. reflexivity.
Qed.

End ReplaceOutcomes.

(** ** The further properties at work on the reference collaborators *)
Section MoreWitnesses.
Import Reference.

(** [add(block_1)] on the chain of [__init__]. *)
Lemma add_appends_and_indexes_witness :
  Chain.blocks (chain_1 with_none) = [ref_genesis; block_1]
  /\ Chain.cost (chain_1 with_none) = 2%Z
  /\ (1, 0)%Z ∈ locations (ref_py_hash [x61]) (Chain.mined_blobs (chain_1 with_none)).
Proof.
  destruct (add_appends_and_indexes (collab := with_none) block_1
              (Chain.__init__ (collab := with_none)) (chain_1 with_none))
    as (Hblocks & _ & Hcost & _ & Hnew & _); [vm_compute; reflexivity|].
  split; [exact Hblocks|]. split; [exact Hcost|].
  destruct (Hnew [blob_a] 0 blob_a eq_refl eq_refl) as (m & Hm & Hin).
  injection Hm as <-. exact Hin.
Defined.

(** [add(block_partial)] on the chain of [__init__]: the first blob is
    entered at index 1, where there is no block. *)
Lemma add_decode_error_is_partial_witness :
  snd (Chain.add (collab := with_none) block_partial
         (Chain.__init__ (collab := with_none))) = Raise DecodeError
  /\ Chain.blocks (fst (Chain.add (collab := with_none) block_partial
                          (Chain.__init__ (collab := with_none)))) !! 1 = None.
Proof.
  destruct (add_decode_error_is_partial (collab := with_none) block_partial
              (Chain.__init__ (collab := with_none)) [blob_a] blob_malformed [])
    as (Hadd & Hnone & _); [reflexivity|reflexivity|reflexivity|].
  split; [rewrite Hadd; reflexivity|exact Hnone].
Defined.

(** The chain of [add(block_1)] then [add(block_3)]. *)
Lemma adds_keep_index_exact_witness :
  exists c,
    add_all (collab := with_none) [block_1; block_3]
      (Chain.__init__ (collab := with_none)) = Ok c
    /\ Chain.blocks c = [ref_genesis; block_1; block_3]
    /\ index_sound (collab := with_none) c
    /\ index_complete (collab := with_none) c.
Proof.
  eexists. split; [vm_compute; reflexivity|].
  apply (adds_keep_index_exact (collab := with_none) [block_1; block_3]).
  vm_compute. reflexivity.
Defined.

(** [add(block_1)] then [insert(1, block_2)] then [replace(2, block_1)]. *)
Lemma index_never_names_genesis_witness :
  index_clear_of_genesis
    (Chain.after_all (collab := with_none)
       [Chain.Add block_1; Chain.Insert 1 block_2; Chain.Replace 2 block_1]
       (Chain.__init__ (collab := with_none))).
Proof.
  apply (index_never_names_genesis (collab := with_none)).
  repeat constructor. cbn. lia.
Defined.

(** [insert(-5, block_2)] on the chain [genesis, block_1] puts [block_2] at
    the front and enters its blob under -5. *)
Lemma insert_places_block_witness :
  Chain.blocks (fst (Chain.insert (collab := with_none) (-5) block_2
                       (chain_1 with_none)))
  = [block_2; ref_genesis; block_1]
  /\ ((-5)%Z, 0%Z)
     ∈ locations (ref_py_hash [x62])
         (Chain.mined_blobs (fst (Chain.insert (collab := with_none) (-5) block_2
                                    (chain_1 with_none)))).
Proof.
  split; [vm_compute; reflexivity|].
  destruct (insert_places_block (collab := with_none) (-5) block_2
              (chain_1 with_none)
              (fst (Chain.insert (collab := with_none) (-5) block_2
                      (chain_1 with_none))))
    as (_ & _ & _ & _ & _ & _ & _ & _ & Hnew); [vm_compute; reflexivity|].
  destruct (Hnew [blob_b] 0 blob_b eq_refl eq_refl) as (m & Hm & Hin).
  injection Hm as <-. exact Hin.
Defined.

(** [replace(1, block_1)] on the chain [genesis, header of block_1]. *)
Lemma replace_fills_body_witness :
  (1%Z ∉ Chain.get_bodiless_indices
           (fst (Chain.replace (collab := with_none) 1 block_1
                   (fst (Chain.insert (collab := with_none) 1 (header_only block_1)
                           (Chain.__init__ (collab := with_none)))))))
  /\ Chain.get_bodiless_indices
       (fst (Chain.insert (collab := with_none) 1 (header_only block_1)
               (Chain.__init__ (collab := with_none)))) = [1%Z].
Proof.
  split; [|vm_compute; reflexivity].
  apply (replace_fills_body (collab := with_none) 1 block_1 _ [blob_a]).
  - vm_compute. reflexivity.
  - reflexivity.
Defined.

(** The location of the blob of [block_1] outlives [insert(1, block_2)] and
    [replace(2, header of block_1)], which takes the body away. *)
Lemma calls_never_remove_locations_witness :
  (1, 0)%Z
  ∈ locations (ref_py_hash [x61])
      (Chain.mined_blobs
         (Chain.after_all (collab := with_none)
            [Chain.Insert 1 block_2; Chain.Replace 2 (header_only block_1)]
            (chain_1 with_none))).
Proof.
  apply (calls_never_remove_locations (collab := with_none)).
  vm_compute. reflexivity.
Defined.

(** [add(block_3)] on the chain [genesis, block_1] keeps it valid; [add] of
    [block_2], which does not link, makes it invalid. *)
Lemma add_then_is_valid_witness :
  Chain.is_valid (collab := with_none)
    (fst (Chain.add (collab := with_none) block_3 (chain_1 with_none))) = Ok true
  /\ Chain.is_valid (collab := with_none)
       (fst (Chain.add (collab := with_none) block_2 (chain_1 with_none)))
     = Ok false.
Proof.
  split.
  - rewrite (add_then_is_valid (collab := with_none) block_3 (chain_1 with_none)
               _ block_1 true); [reflexivity|vm_compute; reflexivity|reflexivity|].
    vm_compute. reflexivity.
  - rewrite (add_then_is_valid (collab := with_none) block_2 (chain_1 with_none)
               _ block_1 true); [reflexivity|vm_compute; reflexivity|reflexivity|].
    vm_compute. reflexivity.
Defined.

(** The block [next] mines on the chain [genesis, block_1], with the nonce
    24, added to it. *)
Lemma mined_block_extends_chain_witness :
  exists c',
    Chain.add (collab := with_none) (mined [xe0] 24 1 [blob_b]) (chain_1 with_none)
    = (c', Ok tt)
    /\ Chain.is_valid (collab := with_none) c' = Ok true
    /\ Chain.is_complete (collab := with_none) c' = Ok true.
Proof.
  destruct (mined_block_extends_chain (collab := with_none) 30 1 [blob_b]
              (chain_1 with_none) (mined [xe0] 24 1 [blob_b]))
    as (c' & Hadd & _ & Hvalid & Hcomplete).
  - vm_compute. reflexivity.
  - reflexivity.
  - vm_compute. reflexivity.
  - exists c'. split; [exact Hadd|]. split; [exact Hvalid|].
    apply Hcomplete. vm_compute. reflexivity.
Defined.

(** The blob of [block_1] again in [block_3]: two locations under its
    hash. *)
Lemma duplicate_blob_two_locations_witness :
  exists c2,
    add_all (collab := with_none) [block_1; block_3]
      (Chain.__init__ (collab := with_none)) = Ok c2
    /\ (1, 0)%Z ∈ locations (ref_py_hash [x61]) (Chain.mined_blobs c2)
    /\ (2, 1)%Z ∈ locations (ref_py_hash [x61]) (Chain.mined_blobs c2).
Proof.
  eexists. split; [vm_compute; reflexivity|].
  apply (duplicate_blob_two_locations (collab := with_none) block_1 block_3
           (Chain.__init__ (collab := with_none)) (chain_1 with_none) _
           [blob_a] [blob_b; blob_a] 0 1 blob_a blob_a [x61] [x61]);
    try reflexivity; vm_compute; reflexivity.
Defined.

(** [replace(1, b)] on the chain [genesis, block_1], with [b] the header of
    [block_1] over the blobs of [block_partial]. *)
Lemma replace_decode_error_is_partial_witness :
  snd (Chain.replace (collab := with_none) 1
         (mkBlock (header block_1) (body block_partial)) (chain_1 with_none))
  = Raise DecodeError
  /\ Chain.blocks
       (fst (Chain.replace (collab := with_none) 1
               (mkBlock (header block_1) (body block_partial)) (chain_1 with_none)))
     !! 1 = Some (mkBlock (header block_1) (body block_partial)).
Proof.
  destruct (replace_decode_error_is_partial (collab := with_none) 1
              (mkBlock (header block_1) (body block_partial)) (chain_1 with_none)
              [blob_a] blob_malformed [])
    as (cur & Hcur & Hraise & Hat & _).
  - split; [vm_compute; split; reflexivity|].
    exists block_1. split; reflexivity.
  - reflexivity.
  - reflexivity.
  - reflexivity.
  - split; [exact Hraise|].
    vm_compute in Hcur. injection Hcur as <-. exact Hat.
Defined.

(** [replace(1, block_1)] completes the chain [genesis, header of
    block_1]. *)
Lemma last_body_completes_chain_witness :
  Chain.is_complete (collab := with_none)
    (fst (Chain.replace (collab := with_none) 1 block_1
            (fst (Chain.insert (collab := with_none) 1 (header_only block_1)
                    (Chain.__init__ (collab := with_none)))))) = Ok true.
Proof.
  apply (last_body_completes_chain (collab := with_none) 1 block_1 _ [blob_a]).
  - vm_compute. reflexivity.
  - intros i Hi. vm_compute in Hi.
    apply list_elem_of_singleton in Hi. exact Hi.
  - vm_compute. reflexivity.
  - reflexivity.
Defined.

End MoreWitnesses.
